(** * sabnzbd-api: the request encoder and response interpreter of [Client.ts]

    A shallow embedding of [src/Client.ts].  JavaScript values, the
    [URLSearchParams] / [URL] / [FormData] / [Map] containers and the promise
    machinery the client relies on are modelled first; the methods of the
    [Client] class follow, under the names they have in the source. *)

From Stdlib Require Import String Ascii List ZArith Bool Lia DecimalString.
Import ListNotations.

Local Open Scope string_scope.
Local Open Scope list_scope.

(** ** JavaScript values *)

Module JS.

#[local] Set Warnings "-register-all".

(** Values as [JSON.parse] and the callers of the client produce them.
    Numbers are the integers: every number the client formats ([start],
    [limit], the [Priority] and [PostProcessing] enums) is one.  [NaN],
    the infinities and fractions have no counterpart here, and the string
    form of an integer is the one JavaScript prints only below [2^53] in
    magnitude (see [prints_in_decimal]). *)
Inductive JsValue : Type :=
| JUndefined
| JNull
| JBool (b : bool)
| JNum (n : Z)
| JStr (s : string)
| JArr (elems : list JsValue)
| JObj (fields : list (string * JsValue)).

(** What is thrown or used as a rejection reason: an instance of [Error]
    (such as [SyntaxError], [TypeError], got's [RequestError] and
    [HTTPError]) with its [message], or any other value. *)
Inductive Thrown : Type :=
| ErrorObj (message : string)
| NonError (v : JsValue).

(** [if( v )]: the truthiness test. *)
Definition truthy (v : JsValue) : bool :=
  match v with
  | JUndefined | JNull => false
  | JBool b => b
  | JNum n => negb (n =? 0)%Z
  | JStr s => negb (s =? EmptyString)
  | JArr _ | JObj _ => true
  end.

(** [Array.prototype.join(",")] on an array of strings. *)
Fixpoint join_comma (l : list string) : string :=
  match l with
  | [] => EmptyString
  | [s] => s
  | s :: rest => s ++ "," ++ join_comma rest
  end.

(** [String(n)] / [n.toString()] for an integer. *)
Definition string_of_Z (n : Z) : string :=
  NilZero.string_of_int (Z.to_int n).

Definition string_of_nat (n : nat) : string := string_of_Z (Z.of_nat n).

(** [String(v)], the conversion [URLSearchParams.append] applies to its
    value argument.  Inside [join], [null] and [undefined] elements become
    the empty string. *)
Fixpoint to_string (v : JsValue) : string :=
  match v with
  | JUndefined => "undefined"
  | JNull => "null"
  | JBool true => "true"
  | JBool false => "false"
  | JNum n => string_of_Z n
  | JStr s => s
  | JArr elems =>
      join_comma (map (fun e => match e with
                                | JUndefined | JNull => EmptyString
                                | _ => to_string e
                                end) elems)
  | JObj _ => "[object Object]"
  end.

(** Own enumerable property lookup in an object literal: the fields are kept
    in enumeration order. *)
Fixpoint assoc {A : Type} (k : string) (l : list (string * A)) : option A :=
  match l with
  | [] => None
  | (k', v) :: rest => if k' =? k then Some v else assoc k rest
  end.

Definition chars (s : string) : list string :=
  map (fun c => String c EmptyString) (list_ascii_of_string s).

(** The element of [l] whose index prints as [k], if any. *)
Definition at_index {A : Type} (l : list A) (k : string) : option A :=
  match find (fun i => string_of_nat i =? k) (seq 0 (length l)) with
  | Some i => nth_error l i
  | None => None
  end.

(** [v[k]] for a [v] that is neither [null] nor [undefined]; a missing
    property reads as [undefined]. *)
Definition prop (v : JsValue) (k : string) : JsValue :=
  match v with
  | JObj fields => match assoc k fields with Some x => x | None => JUndefined end
  | JArr elems =>
      match at_index elems k with
      | Some x => x
      | None => if k =? "length" then JNum (Z.of_nat (length elems)) else JUndefined
      end
  | JStr s =>
      match at_index (chars s) k with
      | Some c => JStr c
      | None => if k =? "length" then JNum (Z.of_nat (String.length s)) else JUndefined
      end
  | _ => JUndefined
  end.

Definition nullish (v : JsValue) : bool :=
  match v with JUndefined | JNull => true | _ => false end.

(** The keys [for( let k in v )] visits, in order.  Nothing is visited for
    [null], [undefined], numbers and booleans. *)
Definition for_in_keys (v : JsValue) : list string :=
  match v with
  | JObj fields => map fst fields
  | JArr elems => map string_of_nat (seq 0 (length elems))
  | JStr s => map string_of_nat (seq 0 (String.length s))
  | _ => []
  end.

End JS.
Export JS.

(** ** Containers of the platform *)

(** [URLSearchParams]: an ordered list of name/value pairs; names may
    repeat. *)
Module URLSearchParams.

Definition t : Type := list (string * string).

Definition empty : t := [].

Definition append (name value : string) (p : t) : t := p ++ [(name, value)].

(** [keys()] yields the name of every pair, repeated names included. *)
Definition keys (p : t) : list string := map fst p.

(** [get(name)]: the value of the first pair with this name, or [null]. *)
Definition get (name : string) (p : t) : option string := assoc name p.

(** How many pairs carry [name]. *)
Definition occurrences (name : string) (p : t) : nat :=
  length (filter (String.eqb name) (keys p)).

End URLSearchParams.

(** [URL]: the string given to the constructor and the live [searchParams]
    list.  The client is constructed with a host that carries its
    [http://] or [https://] prefix and no query or fragment: for such a
    host [new URL] succeeds and [searchParams] starts empty.  What the
    constructor does with any other string is not modelled. *)
Record URL : Type := mkURL {
  href : string;
  searchParams : URLSearchParams.t
}.

Definition new_URL (s : string) : URL := mkURL s URLSearchParams.empty.

Definition searchParams_append (name value : string) (u : URL) : URL :=
  mkURL (href u) (URLSearchParams.append name value (searchParams u)).

(** [FormData] of the form-data package, up to the moment it is handed to
    the transport: an ordered list of fields, each a text value or a
    binary stream the caller attached.  (The upload then drains the form;
    what a form holds after it was sent is not modelled.) *)
Module FormData.

Inductive field : Type :=
| Text (value : string)
| Stream (path : string).

Definition t : Type := list (string * field).

Definition append (name value : string) (f : t) : t := f ++ [(name, Text value)].

Definition occurrences (name : string) (f : t) : nat :=
  length (filter (String.eqb name) (map fst f)).

End FormData.

(** [Map<string, V>]: insertion ordered; [set] replaces the value of a key
    that is present and appends a new key at the end. *)
Module JsMap.

Definition t (V : Type) : Type := list (string * V).

Definition empty {V : Type} : t V := [].

Fixpoint set {V : Type} (k : string) (v : V) (m : t V) : t V :=
  match m with
  | [] => [(k, v)]
  | (k', v') :: rest =>
      if k' =? k then (k, v) :: rest else (k', v') :: set k v rest
  end.

Definition get {V : Type} (k : string) (m : t V) : option V := assoc k m.

Definition keys {V : Type} (m : t V) : list string := map fst m.

Definition size {V : Type} (m : t V) : nat := length m.

End JsMap.

(** ** Promises and the code that settles them *)

Module Async.

(** The state a promise ends up in; every call is one round trip, so this
    is all an observer of the promise can learn.  [Pending] is the promise
    that is never settled. *)
Inductive Promise (A : Type) : Type :=
| Pending
| Fulfilled (value : A)
| Rejected (reason : Thrown).
Arguments Pending {A}.
Arguments Fulfilled {A} value.
Arguments Rejected {A} reason.

(** The result of a call that may throw. *)
Inductive Outcome (A : Type) : Type :=
| Returns (a : A)
| Throws (e : Thrown).
Arguments Returns {A} a.
Arguments Throws {A} e.

(** How a piece of an executor body ends: normally, by a throw, or parked
    at an [await] on a promise that never settles. *)
Inductive Completion (A : Type) : Type :=
| Normal (a : A)
| Throw (e : Thrown)
| Suspend.
Arguments Normal {A} a.
Arguments Throw {A} e.
Arguments Suspend {A}.

(** Code running inside [new Promise((resolve, reject) => ...)]: it threads
    the state of the promise under construction, whose value type is [R]. *)
Definition Exec (R A : Type) : Type := Promise R -> Promise R * Completion A.

Definition ret {R A : Type} (a : A) : Exec R A := fun s => (s, Normal a).

Definition bind {R A B : Type} (m : Exec R A) (k : A -> Exec R B) : Exec R B :=
  fun s =>
    match m s with
    | (s', Normal a) => k a s'
    | (s', Throw e) => (s', Throw e)
    | (s', Suspend) => (s', Suspend)
    end.

(** [resolve(v)] and [reject(e)] settle the promise the first time one of
    them is called and do nothing afterwards. *)
Definition resolve {R : Type} (v : R) : Exec R unit :=
  fun s => (match s with Pending => Fulfilled v | _ => s end, Normal tt).

Definition reject {R : Type} (e : Thrown) : Exec R unit :=
  fun s => (match s with Pending => Rejected e | _ => s end, Normal tt).

Definition lift {R A : Type} (o : Outcome A) : Exec R A :=
  fun s => match o with Returns a => (s, Normal a) | Throws e => (s, Throw e) end.

(** [await p]. *)
Definition await {R A : Type} (p : Promise A) : Exec R A :=
  fun s =>
    match p with
    | Fulfilled a => (s, Normal a)
    | Rejected e => (s, Throw e)
    | Pending => (s, Suspend)
    end.

(** [p.then(cb)]: the callback runs when [p] fulfils; the promise [then]
    returns is rejected with whatever the callback throws. *)
Definition then_ {R A B : Type} (p : Promise A) (cb : A -> Exec R B)
  : Exec R (Promise B) :=
  fun s =>
    match p with
    | Fulfilled a =>
        match cb a s with
        | (s', Normal b) => (s', Normal (Fulfilled b))
        | (s', Throw e) => (s', Normal (Rejected e))
        | (s', Suspend) => (s', Normal Pending)
        end
    | Rejected e => (s, Normal (Rejected e))
    | Pending => (s, Normal Pending)
    end.

(** [p.catch(handler)]: the handler runs when [p] is rejected. *)
Definition catch_ {R A : Type} (p : Promise A) (handler : Thrown -> Exec R unit)
  : Exec R unit :=
  fun s =>
    match p with
    | Rejected e => (fst (handler e s), Normal tt)
    | _ => (s, Normal tt)
    end.

(** [try { body } catch( error ) { handler }]. *)
Definition try_catch {R A : Type} (body : Exec R A) (handler : Thrown -> Exec R A)
  : Exec R A :=
  fun s =>
    match body s with
    | (s', Throw e) => handler e s'
    | r => r
    end.

(** [new Promise(executor)] with a synchronous executor: a throw out of the
    executor rejects the promise if it is still pending. *)
Definition new_Promise {R : Type} (executor : Exec R unit) : Promise R :=
  match executor Pending with
  | (Pending, Throw e) => Rejected e
  | (s, _) => s
  end.

(** [new Promise(async (resolve, reject) => ...)]: the executor returns its
    own promise, which the constructor drops; a throw inside the body, also
    one raised by [await] on a rejected promise, rejects only that dropped
    promise. *)
Definition new_Promise_async {R : Type} (executor : Exec R unit) : Promise R :=
  fst (executor Pending).

(** [async f(...) { body }]: the promise of an async method. *)
Definition async_function {A : Type} (body : Exec A A) : Promise A :=
  match snd (body Pending) with
  | Normal a => Fulfilled a
  | Throw e => Rejected e
  | Suspend => Pending
  end.

(** [for( let x of l )] / [for( let k in o )] with the loop state passed
    along. *)
Fixpoint for_each {R A S : Type} (l : list A) (body : S -> A -> Exec R S) (s : S)
  : Exec R S :=
  match l with
  | [] => ret s
  | x :: rest => bind (body s x) (for_each rest body)
  end.

End Async.
Export Async.

Declare Scope exec_scope.
Delimit Scope exec_scope with exec.
Notation "x <- m ;; k" := (bind m (fun x => k))
  (at level 61, m at next level, right associativity) : exec_scope.

(** [v.k] as an expression: reading a property of [null] or [undefined]
    throws a [TypeError]. *)
Definition get_prop (v : JsValue) (k : string) : Outcome JsValue :=
  if nullish v
  then Throws (ErrorObj ("Cannot read properties of " ++ to_string v))
  else Returns (prop v k).

(** ** [Types.ts] *)

Inductive SortOptions : Type := AverageAge | Name | Size.

Definition SortOptions_value (o : SortOptions) : string :=
  match o with
  | AverageAge => "avg_age"
  | Name => "name"
  | Size => "size"
  end.

Module Priority.
Inductive t : Type :=
| Default | Stop | Duplicate | Paused | Low | Normal | High | Force.

Definition value (p : t) : Z :=
  match p with
  | Default => -100
  | Stop => -4
  | Duplicate => -3
  | Paused => -2
  | Low => -1
  | Normal => 0
  | High => 1
  | Force => 2
  end%Z.
End Priority.

Module PostProcessing.
Inductive t : Type :=
| Default | None | Repair | RepairUnpack | RepairUnpackDelete.

Definition value (p : t) : Z :=
  match p with
  | Default => -1
  | None => 0
  | Repair => 1
  | RepairUnpack => 2
  | RepairUnpackDelete => 3
  end%Z.
End PostProcessing.

(** [ServerStats] and [Stats]; the scalar tallies are copied from the
    decoded response as they are. *)
Record ServerStats : Type := mkServerStats {
  ss_day : JsValue;
  ss_week : JsValue;
  ss_month : JsValue;
  ss_total : JsValue;
  daily : JsMap.t JsValue;
  articles_tried : JsMap.t JsValue;
  articles_success : JsMap.t JsValue
}.

Record Stats : Type := mkStats {
  day : JsValue;
  week : JsValue;
  month : JsValue;
  total : JsValue;
  servers : JsMap.t ServerStats
}.

(** ** Optional parameters *)

(** A parameter typed [T|undefined] is an [option T]; these are the
    JavaScript values the guards [if( x )] look at. *)
Definition of_string (x : option string) : JsValue :=
  match x with Some s => JStr s | None => JUndefined end.

Definition of_number (x : option Z) : JsValue :=
  match x with Some n => JNum n | None => JUndefined end.

Definition of_strings (x : option (list string)) : JsValue :=
  match x with Some l => JArr (map JStr l) | None => JUndefined end.

Definition of_priority (x : option Priority.t) : JsValue :=
  of_number (option_map Priority.value x).

Definition of_postProcess (x : option PostProcessing.t) : JsValue :=
  of_number (option_map PostProcessing.value x).

(** [if( x ) target.append(...)] for a parameter [x : T|undefined] seen as
    the value [inj a]. *)
Definition if_truthy {A T : Type} (inj : A -> JsValue) (x : option A)
  (f : A -> T -> T) (target : T) : T :=
  match x with
  | Some a => if truthy (inj a) then f a target else target
  | None => target
  end.

(** ** The transport *)

Record Response : Type := mkResponse {
  statusCode : Z;
  body : string
}.

(** [string|string[]] *)
Inductive StringOrArray : Type :=
| OneString (s : string)
| ManyStrings (l : list string).

(** The second argument of [methodCall], [URLSearchParams|any|undefined]. *)
Inductive Args : Type :=
| ArgsParams (p : URLSearchParams.t)
| ArgsValue (v : JsValue).

Record Client : Type := mkClient {
  mHost : string;
  mApiKey : string
}.

(** ** [class Client] *)

Section ClientMethods.

Local Open Scope exec_scope.

(** The platform and the got package, as the client sees them:
    [JSON.parse], [got(url)] and [got.post(url, {body})]. *)
Variable JSON_parse : string -> Outcome JsValue.
Variable got : URL -> Outcome (Promise Response).
Variable got_post : string -> FormData.t -> Outcome (Promise Response).

Variable this : Client.

(** *** [methodCall] *)

(** The request [methodCall] hands to got: [apiUrl] once the arguments and
    the three control fields are appended. *)
Definition methodCall_url (method : string) (args : Args) (output : string) : URL :=
  let apiUrl := new_URL (mHost this ++ "/api") in
  let apiUrl :=
    match args with
    | ArgsParams p =>
        fold_left
          (fun u param =>
             searchParams_append param
               (match URLSearchParams.get param p with
                | Some v => v
                | None => EmptyString
                end) u)
          (URLSearchParams.keys p) apiUrl
    | ArgsValue v =>
        if truthy v
        then fold_left
               (fun u argKey => searchParams_append argKey (to_string (prop v argKey)) u)
               (for_in_keys v) apiUrl
        else apiUrl
    end in
  let apiUrl := searchParams_append "mode" method apiUrl in
  let apiUrl := searchParams_append "output" output apiUrl in
  searchParams_append "apikey" (mApiKey this) apiUrl.

Definition methodCall (method : string) (args : Args) (output : string)
  : Promise JsValue :=
  new_Promise (
    let apiUrl := methodCall_url method args output in
    try_catch
      (p <- lift (got apiUrl) ;;
       p' <- then_ p (fun response =>
               if (statusCode response =? 200)%Z then
                 if output =? "json" then
                   responseObject <- lift (JSON_parse (body response)) ;;
                   resolve responseObject
                 else
                   resolve (JStr (body response))
               else ret tt) ;;
       catch_ p' (fun error =>
         match error with
         | ErrorObj message =>
             reject (ErrorObj ("Error accessing SABnzbd host: " ++ message))
         | NonError _ =>
             reject (ErrorObj "Error accessing SABnzbd host")
         end))
      (fun error => reject (ErrorObj "Error parsing response as JSON"))).

(** The operations that resolve with the decoded response as it is
    ([queuePause], [queueSort], [addUrl], [jobDelete], ...). *)
Definition results_call (method : string) (args : Args) : Promise JsValue :=
  new_Promise_async (
    results <- await (methodCall method args "json") ;;
    resolve results).

(** *** Queue *)

Definition queue_searchParams (start limit : option Z) (search : option string)
  (nzoIds : option (list string)) : URLSearchParams.t :=
  let searchParams := URLSearchParams.empty in
  let searchParams :=
    if_truthy JNum start
      (fun n => URLSearchParams.append "start" (string_of_Z n)) searchParams in
  let searchParams :=
    if_truthy JNum limit
      (fun n => URLSearchParams.append "limit" (string_of_Z n)) searchParams in
  let searchParams :=
    if_truthy JStr search (URLSearchParams.append "search") searchParams in
  if_truthy (fun l => JArr (map JStr l)) nzoIds
    (fun l => URLSearchParams.append "nzo_ids" (join_comma l)) searchParams.

Definition queue (start limit : option Z) (search : option string)
  (nzoIds : option (list string)) : Promise JsValue :=
  async_function (
    resultsObj <- await (methodCall "queue"
                    (ArgsParams (queue_searchParams start limit search nzoIds)) "json") ;;
    lift (get_prop resultsObj "queue")).

Definition queueSort_args (sortBy : SortOptions) (ascending : bool) : Args :=
  ArgsValue (JObj [("name", JStr "sort");
                   ("dir", JStr (if ascending then "asc" else "desc"));
                   ("sort", JStr (SortOptions_value sortBy))]).

Definition queueSort (sortBy : SortOptions) (ascending : bool) : Promise JsValue :=
  results_call "queue" (queueSort_args sortBy ascending).

Definition queuePurge_searchParams (search : option string) : URLSearchParams.t :=
  let searchParams := URLSearchParams.empty in
  let searchParams := URLSearchParams.append "name" "purge" searchParams in
  let searchParams := URLSearchParams.append "del_files" "1" searchParams in
  if_truthy JStr search (URLSearchParams.append "search") searchParams.

Definition queuePurge (search : option string) : Promise JsValue :=
  results_call "queue" (ArgsParams (queuePurge_searchParams search)).

(** *** Adding jobs *)

(** The optional fields shared by [addUrl], [addPath] and [addFile];
    [append] is the [append] method of the target. *)
Definition job_options {T : Type} (append : string -> string -> T -> T)
  (name password cat script : option string)
  (priority : option Priority.t) (postProcess : option PostProcessing.t) (target : T) : T :=
  let target := if_truthy JStr name (append "nzbname") target in
  let target := if_truthy JStr password (append "password") target in
  let target := if_truthy JStr cat (append "cat") target in
  let target := if_truthy JStr script (append "script") target in
  let target :=
    if_truthy (fun p => JNum (Priority.value p)) priority
      (fun p => append "priority" (string_of_Z (Priority.value p))) target in
  if_truthy (fun p => JNum (PostProcessing.value p)) postProcess
    (fun p => append "pp" (string_of_Z (PostProcessing.value p))) target.

Definition addUrl_searchParams (url : string) (name password cat script : option string)
  (priority : option Priority.t) (postProcess : option PostProcessing.t)
  : URLSearchParams.t :=
  let searchParams := URLSearchParams.empty in
  let searchParams := URLSearchParams.append "name" url searchParams in
  job_options URLSearchParams.append name password cat script priority postProcess
    searchParams.

Definition addUrl (url : string) (name password cat script : option string)
  (priority : option Priority.t) (postProcess : option PostProcessing.t)
  : Promise JsValue :=
  results_call "addurl"
    (ArgsParams (addUrl_searchParams url name password cat script priority postProcess)).

Definition addPath_searchParams (filePath : string)
  (name password cat script : option string)
  (priority : option Priority.t) (postProcess : option PostProcessing.t)
  : URLSearchParams.t :=
  let searchParams := URLSearchParams.empty in
  let searchParams := URLSearchParams.append "name" filePath searchParams in
  job_options URLSearchParams.append name password cat script priority postProcess
    searchParams.

Definition addPath (filePath : string) (name password cat script : option string)
  (priority : option Priority.t) (postProcess : option PostProcessing.t)
  : Promise JsValue :=
  results_call "addlocalfile"
    (ArgsParams (addPath_searchParams filePath name password cat script priority
                   postProcess)).

(** [addFile] appends to the caller's [formData]; this is its content when
    [got.post] is called. *)
Definition addFile_formData (formData : FormData.t)
  (name password cat script : option string)
  (priority : option Priority.t) (postProcess : option PostProcessing.t)
  : FormData.t :=
  let formData := FormData.append "mode" "addfile" formData in
  let formData := FormData.append "output" "json" formData in
  let formData := FormData.append "apikey" (mApiKey this) formData in
  job_options FormData.append name password cat script priority postProcess formData.

Definition addFile (formData : FormData.t) (name password cat script : option string)
  (priority : option Priority.t) (postProcess : option PostProcessing.t)
  : Promise JsValue :=
  new_Promise (
    let formData :=
      addFile_formData formData name password cat script priority postProcess in
    try_catch
      (p <- lift (got_post (mHost this ++ "/api") formData) ;;
       p' <- then_ p (fun response =>
               if (statusCode response =? 200)%Z then
                 resultObject <- lift (JSON_parse (body response)) ;;
                 resolve resultObject
               else ret tt) ;;
       catch_ p' (fun error =>
         match error with
         | ErrorObj message =>
             reject (ErrorObj ("Error accessing SABnzbd host: " ++ message))
         | NonError _ =>
             reject (ErrorObj "Error accessing SABnzbd host")
         end))
      (fun error => reject (ErrorObj "Error parsing response as JSON"))).

(** *** Jobs *)

Definition jobDelete_args (id : StringOrArray) : Args :=
  match id with
  | ManyStrings l =>
      ArgsValue (JObj [("name", JStr "delete"); ("value", JStr (join_comma l))])
  | OneString s =>
      ArgsValue (JObj [("name", JStr "delete"); ("value", JStr s)])
  end.

Definition jobDelete (id : StringOrArray) : Promise JsValue :=
  results_call "queue" (jobDelete_args id).

Definition jobChangeName_searchParams (id newName : string) (password : option string)
  : URLSearchParams.t :=
  let searchParams := URLSearchParams.empty in
  let searchParams := URLSearchParams.append "name" "rename" searchParams in
  let searchParams := URLSearchParams.append "value" id searchParams in
  let searchParams := URLSearchParams.append "value2" newName searchParams in
  if_truthy JStr password (URLSearchParams.append "value3") searchParams.

Definition jobChangeName (id newName : string) (password : option string)
  : Promise JsValue :=
  results_call "queue" (ArgsParams (jobChangeName_searchParams id newName password)).

Definition getFiles (id : string) : Promise JsValue :=
  new_Promise_async (
    results <- await (methodCall "get_files" (ArgsValue (JObj [("value", JStr id)]))
                 "json") ;;
    files <- lift (get_prop results "files") ;;
    resolve files).

(** *** Operations that check the decoded response *)

Definition version : Promise JsValue :=
  new_Promise_async (
    results <- await (methodCall "version" (ArgsValue JUndefined) "json") ;;
    v <- lift (get_prop results "version") ;;
    if truthy v
    then resolve v
    else reject (ErrorObj "Invalid response from SABnzbd")).

Definition auth : Promise JsValue :=
  new_Promise_async (
    results <- await (methodCall "auth" (ArgsValue JUndefined) "json") ;;
    v <- lift (get_prop results "auth") ;;
    if truthy v
    then resolve v
    else reject (ErrorObj "Invalid response from SABnzbd")).

Definition getCats : Promise JsValue :=
  new_Promise_async (
    results <- await (methodCall "get_cats" (ArgsValue JUndefined) "json") ;;
    v <- lift (get_prop results "categories") ;;
    if negb (truthy v)
    then reject (ErrorObj "Invalid response from SABnzbd")
    else resolve v).

Definition getScripts : Promise JsValue :=
  new_Promise_async (
    results <- await (methodCall "get_scripts" (ArgsValue JUndefined) "json") ;;
    v <- lift (get_prop results "scripts") ;;
    if negb (truthy v)
    then reject (ErrorObj "Invalid response from SABnzbd")
    else resolve v).

(** *** [serverStats] *)

Definition set_daily (m : JsMap.t JsValue) (s : ServerStats) : ServerStats :=
  mkServerStats (ss_day s) (ss_week s) (ss_month s) (ss_total s)
    m (articles_tried s) (articles_success s).

Definition set_articles_tried (m : JsMap.t JsValue) (s : ServerStats) : ServerStats :=
  mkServerStats (ss_day s) (ss_week s) (ss_month s) (ss_total s)
    (daily s) m (articles_success s).

Definition set_articles_success (m : JsMap.t JsValue) (s : ServerStats) : ServerStats :=
  mkServerStats (ss_day s) (ss_week s) (ss_month s) (ss_total s)
    (daily s) (articles_tried s) m.

Definition set_servers (m : JsMap.t ServerStats) (s : Stats) : Stats :=
  mkStats (day s) (week s) (month s) (total s) m.

(** The body of the loop over [results.servers]. *)
Definition serverStats_server (serversObj : JsValue) (stats : Stats) (serverName : string)
  : Exec Stats Stats :=
  serverResult <- lift (get_prop serversObj serverName) ;;
  d <- lift (get_prop serverResult "day") ;;
  w <- lift (get_prop serverResult "week") ;;
  m <- lift (get_prop serverResult "month") ;;
  t <- lift (get_prop serverResult "total") ;;
  let server := mkServerStats d w m t JsMap.empty JsMap.empty JsMap.empty in
  dailyObj <- lift (get_prop serverResult "daily") ;;
  server <- for_each (for_in_keys dailyObj)
              (fun server dailyDate =>
                 v <- lift (get_prop dailyObj dailyDate) ;;
                 ret (set_daily (JsMap.set dailyDate v (daily server)) server))
              server ;;
  triedObj <- lift (get_prop serverResult "articles_tried") ;;
  server <- for_each (for_in_keys triedObj)
              (fun server articlesTriedDate =>
                 v <- lift (get_prop triedObj articlesTriedDate) ;;
                 ret (set_articles_tried
                        (JsMap.set articlesTriedDate v (articles_tried server)) server))
              server ;;
  successObj <- lift (get_prop serverResult "articles_success") ;;
  server <- for_each (for_in_keys successObj)
              (fun server articlesSuccessDate =>
                 v <- lift (get_prop triedObj articlesSuccessDate) ;;
                 ret (set_articles_success
                        (JsMap.set articlesSuccessDate v (articles_success server))
                        server))
              server ;;
  ret (set_servers (JsMap.set serverName server (servers stats)) stats).

Definition serverStats : Promise Stats :=
  new_Promise_async (
    results <- await (methodCall "server_stats" (ArgsValue JUndefined) "json") ;;
    d <- lift (get_prop results "day") ;;
    w <- lift (get_prop results "week") ;;
    m <- lift (get_prop results "month") ;;
    t <- lift (get_prop results "total") ;;
    let stats := mkStats d w m t JsMap.empty in
    serversObj <- lift (get_prop results "servers") ;;
    stats <- for_each (for_in_keys serversObj) (serverStats_server serversObj) stats ;;
    resolve stats).

(** *** Configuration *)

Definition getConfig_options (section keyword : option string) : JsValue :=
  let options := [] in
  let options :=
    if_truthy JStr section (fun s => JsMap.set "section" (JStr s)) options in
  let options :=
    if_truthy JStr keyword (fun s => JsMap.set "keyword" (JStr s)) options in
  JObj options.

Definition getConfig (section keyword : option string) : Promise JsValue :=
  results_call "get_config" (ArgsValue (getConfig_options section keyword)).

Definition setConfig (args : JsValue) : Promise JsValue :=
  results_call "set_config" (ArgsValue args).

Definition setConfigDefault_args (keyword : StringOrArray) : Args :=
  match keyword with
  | ManyStrings l =>
      ArgsParams
        (fold_left (fun searchParams value =>
                      URLSearchParams.append "keyword" value searchParams)
           l URLSearchParams.empty)
  | OneString s => ArgsValue (JObj [("keyword", JStr s)])
  end.

Definition setConfigDefault (keyword : StringOrArray) : Promise JsValue :=
  results_call "set_config_default" (setConfigDefault_args keyword).

Definition translateText (text : string) : Promise JsValue :=
  new_Promise_async (
    results <- await (methodCall "translate" (ArgsValue (JObj [("value", JStr text)]))
                 "json") ;;
    v <- lift (get_prop results "value") ;;
    if truthy v
    then ret tt
    else
      e <- lift (get_prop results "error") ;;
      reject (ErrorObj ("Error in API call"
                        ++ (if truthy e then ": " ++ to_string e else EmptyString)))).

End ClientMethods.

(** ** A decoder for the concrete scenarios

    The methods above take [JSON.parse] as a parameter and the statements
    below quantify over it.  [Json.parse] is a decoder for the fragment of
    JSON the scenarios use (integers for numbers, the two-character escapes
    in strings, no array-index keys); it serves where a statement is
    evaluated on a concrete response body.  The message of the
    [SyntaxError] depends on the engine and is fixed here. *)

Module Json.

Local Open Scope char_scope.

Definition is_ws (c : ascii) : bool :=
  match c with
  | " " | "009" | "010" | "013" => true
  | _ => false
  end.

Fixpoint skip_ws (s : list ascii) : list ascii :=
  match s with
  | c :: rest => if is_ws c then skip_ws rest else s
  | [] => []
  end.

Definition digit (c : ascii) : option Z :=
  let n := nat_of_ascii c in
  if andb (48 <=? n)%nat (n <=? 57)%nat then Some (Z.of_nat (n - 48)) else None.

Fixpoint digits (s : list ascii) (acc : Z) : Z * list ascii :=
  match s with
  | c :: rest =>
      match digit c with
      | Some d => digits rest (10 * acc + d)%Z
      | None => (acc, s)
      end
  | [] => (acc, [])
  end.

(** [0] or a digit sequence without leading zero; a fraction or an exponent
    is outside the fragment. *)
Definition natural (s : list ascii) : option (Z * list ascii) :=
  match s with
  | c :: rest =>
      match digit c with
      | Some d =>
          let '(n, rest') := if (d =? 0)%Z then (0%Z, rest) else digits rest d in
          match rest' with
          | c' :: _ =>
              match digit c' with
              | Some _ => None
              | None => if existsb (Ascii.eqb c') ["."; "e"; "E"] then None
                        else Some (n, rest')
              end
          | [] => Some (n, rest')
          end
      | None => None
      end
  | [] => None
  end.

Definition number (s : list ascii) : option (Z * list ascii) :=
  match s with
  | "-" :: rest =>
      match natural rest with
      | Some (n, rest') => Some ((- n)%Z, rest')
      | None => None
      end
  | _ => natural s
  end.

(** The characters after an opening quote, up to the closing one. *)
Fixpoint string_body (s : list ascii) : option (string * list ascii) :=
  match s with
  | [] => None
  | "034" :: rest => Some (EmptyString, rest)
  | "\" :: e :: rest =>
      let unescaped :=
        match e with
        | "034" => Some "034"
        | "\" => Some "\"
        | "/" => Some "/"
        | "b" => Some "008"
        | "f" => Some "012"
        | "n" => Some "010"
        | "r" => Some "013"
        | "t" => Some "009"
        | _ => None
        end in
      match unescaped, string_body rest with
      | Some c, Some (str, rest') => Some (String c str, rest')
      | _, _ => None
      end
  | c :: rest =>
      if (nat_of_ascii c <? 32)%nat then None
      else match string_body rest with
           | Some (str, rest') => Some (String c str, rest')
           | None => None
           end
  end.

Fixpoint value (fuel : nat) (s : list ascii) : option (JsValue * list ascii) :=
  match fuel with
  | O => None
  | S fuel' =>
      match skip_ws s with
      | "n" :: "u" :: "l" :: "l" :: rest => Some (JNull, rest)
      | "t" :: "r" :: "u" :: "e" :: rest => Some (JBool true, rest)
      | "f" :: "a" :: "l" :: "s" :: "e" :: rest => Some (JBool false, rest)
      | "034" :: rest =>
          match string_body rest with
          | Some (str, rest') => Some (JStr str, rest')
          | None => None
          end
      | "[" :: rest =>
          match skip_ws rest with
          | "]" :: rest' => Some (JArr [], rest')
          | _ => elements fuel' rest []
          end
      | "{" :: rest =>
          match skip_ws rest with
          | "}" :: rest' => Some (JObj [], rest')
          | _ => members fuel' rest []
          end
      | s' =>
          match number s' with
          | Some (n, rest) => Some (JNum n, rest)
          | None => None
          end
      end
  end
with elements (fuel : nat) (s : list ascii) (acc : list JsValue)
  : option (JsValue * list ascii) :=
  match fuel with
  | O => None
  | S fuel' =>
      match value fuel' s with
      | Some (v, rest) =>
          match skip_ws rest with
          | "," :: rest' => elements fuel' rest' (acc ++ [v])
          | "]" :: rest' => Some (JArr (acc ++ [v]), rest')
          | _ => None
          end
      | None => None
      end
  end
with members (fuel : nat) (s : list ascii) (acc : list (string * JsValue))
  : option (JsValue * list ascii) :=
  match fuel with
  | O => None
  | S fuel' =>
      match skip_ws s with
      | "034" :: rest =>
          match string_body rest with
          | Some (key, rest1) =>
              match skip_ws rest1 with
              | ":" :: rest2 =>
                  match value fuel' rest2 with
                  | Some (v, rest3) =>
                      match skip_ws rest3 with
                      | "," :: rest4 => members fuel' rest4 (JsMap.set key v acc)
                      | "}" :: rest4 => Some (JObj (JsMap.set key v acc), rest4)
                      | _ => None
                      end
                  | None => None
                  end
              | _ => None
              end
          | None => None
          end
      | _ => None
      end
  end.

Definition SyntaxError : Thrown := ErrorObj "Unexpected token in JSON".

Definition parse (text : string) : Outcome JsValue :=
  let s := list_ascii_of_string text in
  match value (2 * length s + 2) s with
  | Some (v, rest) =>
      match skip_ws rest with
      | [] => Returns v
      | _ => Throws SyntaxError
      end
  | None => Throws SyntaxError
  end.

End Json.


(** [JSON.stringify] for the same fragment, used to write the response
    bodies of the scenarios. *)
Module JsonText.

Fixpoint escape (s : string) : string :=
  match s with
  | EmptyString => EmptyString
  | String c rest =>
      if orb (Ascii.eqb c "034") (Ascii.eqb c "\")
      then String "\" (String c (escape rest))
      else String c (escape rest)
  end.

Definition quote (s : string) : string :=
  String "034" (escape s ++ String "034" EmptyString).

Fixpoint stringify (v : JsValue) : string :=
  match v with
  | JUndefined | JNull => "null"
  | JBool true => "true"
  | JBool false => "false"
  | JNum n => string_of_Z n
  | JStr s => quote s
  | JArr elems => "[" ++ join_comma (map stringify elems) ++ "]"
  | JObj fields =>
      "{" ++ join_comma (map (fun kv => (quote (fst kv) ++ ":" ++ stringify (snd kv))%string)
                           fields) ++ "}"
  end.

End JsonText.

(** ** The statistics projection, loop by loop

    [JsMap.build f keys m] is the [Map] a loop
    [for( let k in o ) m.set(k, f k)] leaves behind; [projected_server]
    is the [ServerStats] record the body of the outer loop of
    [serverStats] builds when nothing throws. *)

Definition build {V : Type} (f : string -> V) (keys : list string) (m : JsMap.t V)
  : JsMap.t V :=
  fold_left (fun m k => JsMap.set k (f k) m) keys m.

Definition projected_server (serverResult : JsValue) : ServerStats :=
  let dailyObj := prop serverResult "daily" in
  let triedObj := prop serverResult "articles_tried" in
  let successObj := prop serverResult "articles_success" in
  mkServerStats
    (prop serverResult "day") (prop serverResult "week")
    (prop serverResult "month") (prop serverResult "total")
    (build (prop dailyObj) (for_in_keys dailyObj) JsMap.empty)
    (build (prop triedObj) (for_in_keys triedObj) JsMap.empty)
    (build (prop triedObj) (for_in_keys successObj) JsMap.empty).

(** The decoded responses on which the loops of [serverStats] run to the
    end: no property is read from [null] or [undefined]. *)
Definition server_wellformed (serverResult : JsValue) : bool :=
  negb (nullish serverResult) &&
  (negb (nullish (prop serverResult "articles_tried")) ||
   (length (for_in_keys (prop serverResult "articles_success")) =? 0)%nat).

Definition stats_wellformed (results : JsValue) : bool :=
  negb (nullish results) &&
  forallb (fun serverName => server_wellformed (prop (prop results "servers") serverName))
    (for_in_keys (prop results "servers")).

Definition projected_stats (results : JsValue) : Stats :=
  let serversObj := prop results "servers" in
  mkStats (prop results "day") (prop results "week") (prop results "month")
    (prop results "total")
    (build (fun serverName => projected_server (prop serversObj serverName))
       (for_in_keys serversObj) JsMap.empty).

(** The lookup [out] has exactly the date keys of the source object [src],
    each of them once. *)
Definition same_dates (src : JsValue) (out : JsMap.t JsValue) : Prop :=
  (forall date, In date (for_in_keys src) ->
                count_occ string_dec (JsMap.keys out) date = 1) /\
  (forall date, In date (JsMap.keys out) -> In date (for_in_keys src)).

(** The number of entries of one lookup, summed over the servers. *)
Definition entries (field : ServerStats -> JsMap.t JsValue) (stats : Stats) : nat :=
  list_sum (map (fun entry => JsMap.size (field (snd entry))) (servers stats)).

(** [stats.servers.get(serverName)?.<field>.get(date)] *)
Definition lookup (field : ServerStats -> JsMap.t JsValue) (stats : Stats)
  (serverName date : string) : option JsValue :=
  match JsMap.get serverName (servers stats) with
  | Some server => JsMap.get date (field server)
  | None => None
  end.

(** ** Shapes shared by the statements *)

(** The three control fields, in the order [methodCall] appends them. *)
Definition control_fields (this : Client) (method output : string) : URLSearchParams.t :=
  [("mode", method); ("output", output); ("apikey", mApiKey this)].

(** What the loop of [methodCall] over [args.keys()] copies: every name,
    each time with the value [args.get] finds for it. *)
Definition copied (p : URLSearchParams.t) : URLSearchParams.t :=
  map (fun param =>
         (param, match URLSearchParams.get param p with
                 | Some v => v
                 | None => EmptyString
                 end))
    (URLSearchParams.keys p).

(** A piece of executor code that settles nothing: it leaves the state of
    the promise as it found it. *)
Definition silent {R A : Type} (m : Exec R A) : Prop :=
  forall st, fst (m st) = st.

(** The check [version], [auth], [getCats] and [getScripts] perform on
    their field once the dispatch has settled in state [p]. *)
Definition checked_field (field : string) (p : Promise JsValue) : Promise JsValue :=
  match p with
  | Fulfilled results =>
      if nullish results then Pending
      else if truthy (prop results field) then Fulfilled (prop results field)
           else Rejected (ErrorObj "Invalid response from SABnzbd")
  | _ => Pending
  end.

(** The numbers whose string form the model prints as JavaScript does:
    the integers a number holds exactly, below [2^53] in magnitude.
    ([String] switches to the exponent form from [1e21] on.) *)
Definition prints_in_decimal (v : JsValue) : bool :=
  match v with
  | JNum n => (Z.abs n <? 2 ^ 53)%Z
  | _ => true
  end.

(** The state the promise of [methodCall] or [addFile] is left in by the
    chain [try { transport.then(...).catch(...) } catch { ... }], by cases
    on what the transport call did: threw, or returned a promise that
    stays pending, is rejected, or fulfils with a response. *)
Definition settled_from (JSON_parse : string -> Outcome JsValue) (output : string)
  (transport : Outcome (Promise Response)) : Promise JsValue :=
  match transport with
  | Throws _ => Rejected (ErrorObj "Error parsing response as JSON")
  | Returns Pending => Pending
  | Returns (Rejected (ErrorObj message)) =>
      Rejected (ErrorObj ("Error accessing SABnzbd host: " ++ message))
  | Returns (Rejected (NonError _)) => Rejected (ErrorObj "Error accessing SABnzbd host")
  | Returns (Fulfilled response) =>
      if (statusCode response =? 200)%Z then
        if output =? "json" then
          match JSON_parse (body response) with
          | Returns v => Fulfilled v
          | Throws (ErrorObj message) =>
              Rejected (ErrorObj ("Error accessing SABnzbd host: " ++ message))
          | Throws (NonError _) => Rejected (ErrorObj "Error accessing SABnzbd host")
          end
        else Fulfilled (JStr (body response))
      else Pending
  end.

(** ** The error taxonomy

    The client rejects with plain [Error] objects; the class of a failure
    is carried by its message alone.  The three classes of the
    specification correspond to the three message families of [Client.ts]:
    the [.catch] handler of the transport promise, the [catch] block around
    the transport call, and the shape checks of the operations. *)

Inductive ErrorClass : Type :=
| TransportError
| DecodeError
| ProtocolError.

Definition classify (e : Thrown) : option ErrorClass :=
  match e with
  | ErrorObj message =>
      if String.prefix "Error accessing SABnzbd host" message then Some TransportError
      else if message =? "Error parsing response as JSON" then Some DecodeError
      else if message =? "Invalid response from SABnzbd" then Some ProtocolError
      else None
  | NonError _ => None
  end.

(** ** Vocabulary of the statements *)

(** The value a caller supplied is defined and non-empty, in the words of
    the specification: not [undefined], not the empty string, not the empty
    list. *)
Definition defined_nonempty (v : JsValue) : bool :=
  match v with
  | JUndefined | JNull => false
  | JStr s => negb (s =? EmptyString)
  | JArr elems => negb (length elems =? 0)%nat
  | _ => true
  end.

(** The field an optional parameter contributes under the guard
    [if( x )]: one pair when the value is truthy, none otherwise. *)
Definition present {V : Type} (g : string -> V) (k : string) (v : JsValue)
  : list (string * V) :=
  if truthy v then [(k, g (to_string v))] else [].

(** A list argument [l] is carried by [p] as one comma-joined field [k]. *)
Definition single_joined_field (k : string) (l : list string) (p : URLSearchParams.t)
  : Prop :=
  URLSearchParams.occurrences k p = 1 /\
  URLSearchParams.get k p = Some (join_comma l).

(** The public operations with optional parameters, as calls. *)
Inductive OptCall : Type :=
| CallQueue (start limit : option Z) (search : option string)
    (nzoIds : option (list string))
| CallQueuePurge (search : option string)
| CallAddUrl (url : string) (name password cat script : option string)
    (priority : option Priority.t) (postProcess : option PostProcessing.t)
| CallAddPath (filePath : string) (name password cat script : option string)
    (priority : option Priority.t) (postProcess : option PostProcessing.t)
| CallAddFile (formData : FormData.t) (name password cat script : option string)
    (priority : option Priority.t) (postProcess : option PostProcessing.t)
| CallJobChangeName (id newName : string) (password : option string)
| CallGetConfig (section keyword : option string).

Definition job_parameters (name password cat script : option string)
  (priority : option Priority.t) (postProcess : option PostProcessing.t)
  : list (string * JsValue) :=
  [("nzbname", of_string name); ("password", of_string password);
   ("cat", of_string cat); ("script", of_string script);
   ("priority", of_priority priority); ("pp", of_postProcess postProcess)].

(** The optional parameters of a call: the request field each one is sent
    as, and the value the caller supplied ([undefined] when omitted). *)
Definition optional_parameters (c : OptCall) : list (string * JsValue) :=
  match c with
  | CallQueue start limit search nzoIds =>
      [("start", of_number start); ("limit", of_number limit);
       ("search", of_string search); ("nzo_ids", of_strings nzoIds)]
  | CallQueuePurge search => [("search", of_string search)]
  | CallAddUrl _ name password cat script priority postProcess
  | CallAddPath _ name password cat script priority postProcess
  | CallAddFile _ name password cat script priority postProcess =>
      job_parameters name password cat script priority postProcess
  | CallJobChangeName _ _ password => [("value3", of_string password)]
  | CallGetConfig section keyword =>
      [("section", of_string section); ("keyword", of_string keyword)]
  end.

Definition query_fields (u : URL) : FormData.t :=
  map (fun kv => (fst kv, FormData.Text (snd kv))) (searchParams u).

(** The fields of the request a call sends: the query parameters of the
    URL or, for [addFile], the form. *)
Definition encoded_fields (this : Client) (c : OptCall) : FormData.t :=
  match c with
  | CallQueue start limit search nzoIds =>
      query_fields (methodCall_url this "queue"
        (ArgsParams (queue_searchParams start limit search nzoIds)) "json")
  | CallQueuePurge search =>
      query_fields (methodCall_url this "queue"
        (ArgsParams (queuePurge_searchParams search)) "json")
  | CallAddUrl url name password cat script priority postProcess =>
      query_fields (methodCall_url this "addurl"
        (ArgsParams (addUrl_searchParams url name password cat script priority
                       postProcess)) "json")
  | CallAddPath filePath name password cat script priority postProcess =>
      query_fields (methodCall_url this "addlocalfile"
        (ArgsParams (addPath_searchParams filePath name password cat script priority
                       postProcess)) "json")
  | CallAddFile formData name password cat script priority postProcess =>
      addFile_formData this formData name password cat script priority postProcess
  | CallJobChangeName id newName password =>
      query_fields (methodCall_url this "queue"
        (ArgsParams (jobChangeName_searchParams id newName password)) "json")
  | CallGetConfig section keyword =>
      query_fields (methodCall_url this "get_config"
        (ArgsValue (getConfig_options section keyword)) "json")
  end.

(** The fields the caller had put in the request before the call: the
    content of the form given to [addFile]. *)
Definition preset_fields (c : OptCall) : FormData.t :=
  match c with
  | CallAddFile formData _ _ _ _ _ _ => formData
  | _ => []
  end.

(** ** Concrete scenarios *)

Definition example_client : Client := mkClient "http://example.com/sabnzbd" "apikey".

(** A transport whose promise ends up in state [p] whatever the request. *)
Definition got_settles (p : Promise Response) : URL -> Outcome (Promise Response) :=
  fun _ => Returns p.

(** The decoded statistics response of the two-server scenario, and the
    same response with the keys of every object in another order. *)
Definition dates (a b c : Z) : JsValue :=
  JObj [("2021-05-01", JNum a); ("2021-05-02", JNum b); ("2021-05-03", JNum c)].

Definition dates_shuffled (a b c : Z) : JsValue :=
  JObj [("2021-05-03", JNum c); ("2021-05-01", JNum a); ("2021-05-02", JNum b)].

Definition server_entry (d : Z -> Z -> Z -> JsValue) (base : Z) : JsValue :=
  JObj [("day", JNum base); ("week", JNum base); ("month", JNum base);
        ("total", JNum base);
        ("daily", d (base + 1) (base + 2) (base + 3))%Z;
        ("articles_tried", d (base + 10) (base + 20) (base + 30))%Z;
        ("articles_success", d (base + 9) (base + 19) (base + 29))%Z].

Definition stats_response : JsValue :=
  JObj [("day", JNum 1); ("week", JNum 2); ("month", JNum 3); ("total", JNum 4);
        ("servers", JObj [("news.example.com", server_entry dates 100);
                          ("news.example.org", server_entry dates 200)])].

Definition stats_response_shuffled : JsValue :=
  JObj [("servers", JObj [("news.example.org", server_entry dates_shuffled 200);
                          ("news.example.com", server_entry dates_shuffled 100)]);
        ("total", JNum 4); ("month", JNum 3); ("week", JNum 2); ("day", JNum 1)].

(** * The rest of [class Client] *)

(** [ErrorType] and [ErrorWarning] of [Types.ts]. *)
Inductive ErrorType : Type := Warning.

Record ErrorWarning : Type := mkErrorWarning {
  ew_text : JsValue;
  ew_type : ErrorType;
  ew_time : JsValue
}.

Definition CompleteAction_HibernatePC : string := "hibernate_pc".
Definition CompleteAction_StandbyPC : string := "standby_pc".
Definition CompleteAction_ShutdownProgram : string := "shutdown_program".

(** The values [for( let x of v )] visits: the elements of an array, the
    characters of a string; anything else [JSON.parse] can produce is not
    iterable and the loop throws a [TypeError]. *)
Definition iterate (v : JsValue) : Outcome (list JsValue) :=
  match v with
  | JArr elems => Returns elems
  | JStr s => Returns (map JStr (chars s))
  | _ => Throws (ErrorObj (to_string v ++ " is not iterable"))
  end.

(** [v === s] for a string literal [s]. *)
Definition strict_equal_string (v : JsValue) (s : string) : bool :=
  match v with
  | JStr s' => s' =? s
  | _ => false
  end.

Section ClientMethodsRest.

Local Open Scope exec_scope.

Variable JSON_parse : string -> Outcome JsValue.
Variable got : URL -> Outcome (Promise Response).
Variable this : Client.

Definition queuePause : Promise JsValue :=
  results_call JSON_parse got this "pause" (ArgsValue JUndefined).

Definition queueResume : Promise JsValue :=
  results_call JSON_parse got this "resume" (ArgsValue JUndefined).

(** [action] is a [CompleteAction] or the name of a script; both are
    strings. *)
Definition changeCompleteAction_args (action : string) : Args :=
  ArgsValue (JObj [("value", JStr action)]).

Definition changeCompleteAction (action : string) : Promise JsValue :=
  results_call JSON_parse got this "change_complete_action"
    (changeCompleteAction_args action).

Definition jobPause_args (id : string) : Args :=
  ArgsValue (JObj [("name", JStr "pause"); ("value", JStr id)]).

Definition jobPause (id : string) : Promise JsValue :=
  results_call JSON_parse got this "queue" (jobPause_args id).

Definition jobResume_args (id : string) : Args :=
  ArgsValue (JObj [("name", JStr "resume"); ("value", JStr id)]).

Definition jobResume (id : string) : Promise JsValue :=
  results_call JSON_parse got this "queue" (jobResume_args id).

Definition jobDeleteAll_args : Args :=
  ArgsValue (JObj [("name", JStr "delete"); ("value", JStr "all");
                   ("del_files", JNum 1)]).

Definition jobDeleteAll : Promise JsValue :=
  results_call JSON_parse got this "queue" jobDeleteAll_args.

Definition jobMove_args (firstId secondId : string) : Args :=
  ArgsValue (JObj [("value", JStr firstId); ("value2", JStr secondId)]).

Definition jobMove (firstId secondId : string) : Promise JsValue :=
  results_call JSON_parse got this "switch" (jobMove_args firstId secondId).

Definition changeCat_args (id category : string) : Args :=
  ArgsValue (JObj [("value", JStr id); ("value2", JStr category)]).

Definition changeCat (id category : string) : Promise JsValue :=
  results_call JSON_parse got this "change_cat" (changeCat_args id category).

Definition changeScript_args (id script : string) : Args :=
  ArgsValue (JObj [("value", JStr id); ("value2", JStr script)]).

Definition changeScript (id script : string) : Promise JsValue :=
  results_call JSON_parse got this "change_script" (changeScript_args id script).

Definition changePriority_args (id : string) (priority : Priority.t) : Args :=
  ArgsValue (JObj [("name", JNum (Priority.value priority)); ("value", JStr id);
                   ("value2", JNum (Priority.value priority))]).

Definition changePriority (id : string) (priority : Priority.t) : Promise JsValue :=
  results_call JSON_parse got this "queue" (changePriority_args id priority).

Definition changePostProcessing_args (id : string) (postProcessing : PostProcessing.t)
  : Args :=
  ArgsValue (JObj [("value", JStr id);
                   ("value2", JNum (PostProcessing.value postProcessing))]).

Definition changePostProcessing (id : string) (postProcessing : PostProcessing.t)
  : Promise JsValue :=
  results_call JSON_parse got this "change_opts"
    (changePostProcessing_args id postProcessing).

Definition warningsClear_args : Args :=
  ArgsValue (JObj [("name", JStr "clear")]).

Definition warningsClear : Promise JsValue :=
  results_call JSON_parse got this "warnings" warningsClear_args.

Definition shutdown : Promise JsValue :=
  results_call JSON_parse got this "shutdown" (ArgsValue JUndefined).

Definition restart : Promise JsValue :=
  results_call JSON_parse got this "restart" (ArgsValue JUndefined).

Definition restartRepair : Promise JsValue :=
  results_call JSON_parse got this "restart_repair" (ArgsValue JUndefined).

Definition pausePostProcessing : Promise JsValue :=
  results_call JSON_parse got this "pause_pp" (ArgsValue JUndefined).

Definition rssNow : Promise JsValue :=
  results_call JSON_parse got this "rss_now" (ArgsValue JUndefined).

Definition watchedNow : Promise JsValue :=
  results_call JSON_parse got this "watched_now" (ArgsValue JUndefined).

(** [resetQuota] is an [async] method that returns the promise it builds;
    the promise of the method follows that one. *)
Definition resetQuota : Promise JsValue :=
  results_call JSON_parse got this "reset_quota" (ArgsValue JUndefined).

(** *** [warnings] *)

(** The body of the loop over the decoded response: [reject] does not leave
    the loop, the record is pushed in any case. *)
Definition warnings_entry (warnings : list ErrorWarning) (result : JsValue)
  : Exec (list ErrorWarning) (list ErrorWarning) :=
  text <- lift (get_prop result "text") ;;
  type <- lift (get_prop result "type") ;;
  time <- lift (get_prop result "time") ;;
  _ <- (if negb (truthy text) || negb (strict_equal_string type "WARNING")
           || negb (truthy time)
        then reject (ErrorObj "Invalid response from SABnzbd")
        else ret tt) ;;
  ret (warnings ++ [mkErrorWarning text Warning time]).

(** Like [resetQuota], an [async] method returning the promise it builds. *)
Definition warnings : Promise (list ErrorWarning) :=
  new_Promise_async (
    results <- await (methodCall JSON_parse got this "warnings" (ArgsValue JUndefined)
                        "json") ;;
    elems <- lift (iterate results) ;;
    warnings <- for_each elems warnings_entry [] ;;
    resolve warnings).

End ClientMethodsRest.

(** ** The catalogue of operations *)

(** The operations that dispatch one call and resolve with the decoded
    response as it is, with their arguments. *)
Inductive Operation : Type :=
| OpQueuePause
| OpQueueResume
| OpQueueSort (sortBy : SortOptions) (ascending : bool)
| OpQueuePurge (search : option string)
| OpChangeCompleteAction (action : string)
| OpAddUrl (url : string) (name password cat script : option string)
    (priority : option Priority.t) (postProcess : option PostProcessing.t)
| OpAddPath (filePath : string) (name password cat script : option string)
    (priority : option Priority.t) (postProcess : option PostProcessing.t)
| OpJobPause (id : string)
| OpJobResume (id : string)
| OpJobDelete (id : StringOrArray)
| OpJobDeleteAll
| OpJobMove (firstId secondId : string)
| OpJobChangeName (id newName : string) (password : option string)
| OpChangeCat (id category : string)
| OpChangeScript (id script : string)
| OpChangePriority (id : string) (priority : Priority.t)
| OpChangePostProcessing (id : string) (postProcessing : PostProcessing.t)
| OpWarningsClear
| OpGetConfig (section keyword : option string)
| OpSetConfig (args : JsValue)
| OpSetConfigDefault (keyword : StringOrArray)
| OpShutdown
| OpRestart
| OpRestartRepair
| OpPausePostProcessing
| OpRssNow
| OpWatchedNow
| OpResetQuota.

(** The method of the class an [Operation] stands for. *)
Definition perform (JSON_parse : string -> Outcome JsValue)
  (got : URL -> Outcome (Promise Response)) (this : Client) (op : Operation)
  : Promise JsValue :=
  match op with
  | OpQueuePause => queuePause JSON_parse got this
  | OpQueueResume => queueResume JSON_parse got this
  | OpQueueSort sortBy ascending => queueSort JSON_parse got this sortBy ascending
  | OpQueuePurge search => queuePurge JSON_parse got this search
  | OpChangeCompleteAction action => changeCompleteAction JSON_parse got this action
  | OpAddUrl url name password cat script priority postProcess =>
      addUrl JSON_parse got this url name password cat script priority postProcess
  | OpAddPath filePath name password cat script priority postProcess =>
      addPath JSON_parse got this filePath name password cat script priority postProcess
  | OpJobPause id => jobPause JSON_parse got this id
  | OpJobResume id => jobResume JSON_parse got this id
  | OpJobDelete id => jobDelete JSON_parse got this id
  | OpJobDeleteAll => jobDeleteAll JSON_parse got this
  | OpJobMove firstId secondId => jobMove JSON_parse got this firstId secondId
  | OpJobChangeName id newName password =>
      jobChangeName JSON_parse got this id newName password
  | OpChangeCat id category => changeCat JSON_parse got this id category
  | OpChangeScript id script => changeScript JSON_parse got this id script
  | OpChangePriority id priority => changePriority JSON_parse got this id priority
  | OpChangePostProcessing id postProcessing =>
      changePostProcessing JSON_parse got this id postProcessing
  | OpWarningsClear => warningsClear JSON_parse got this
  | OpGetConfig section keyword => getConfig JSON_parse got this section keyword
  | OpSetConfig args => setConfig JSON_parse got this args
  | OpSetConfigDefault keyword => setConfigDefault JSON_parse got this keyword
  | OpShutdown => shutdown JSON_parse got this
  | OpRestart => restart JSON_parse got this
  | OpRestartRepair => restartRepair JSON_parse got this
  | OpPausePostProcessing => pausePostProcessing JSON_parse got this
  | OpRssNow => rssNow JSON_parse got this
  | OpWatchedNow => watchedNow JSON_parse got this
  | OpResetQuota => resetQuota JSON_parse got this
  end.

(** The method selector and the arguments the operation hands to
    [methodCall]. *)
Definition dispatched (op : Operation) : string * Args :=
  match op with
  | OpQueuePause => ("pause", ArgsValue JUndefined)
  | OpQueueResume => ("resume", ArgsValue JUndefined)
  | OpQueueSort sortBy ascending => ("queue", queueSort_args sortBy ascending)
  | OpQueuePurge search => ("queue", ArgsParams (queuePurge_searchParams search))
  | OpChangeCompleteAction action =>
      ("change_complete_action", changeCompleteAction_args action)
  | OpAddUrl url name password cat script priority postProcess =>
      ("addurl",
       ArgsParams (addUrl_searchParams url name password cat script priority postProcess))
  | OpAddPath filePath name password cat script priority postProcess =>
      ("addlocalfile",
       ArgsParams (addPath_searchParams filePath name password cat script priority
                     postProcess))
  | OpJobPause id => ("queue", jobPause_args id)
  | OpJobResume id => ("queue", jobResume_args id)
  | OpJobDelete id => ("queue", jobDelete_args id)
  | OpJobDeleteAll => ("queue", jobDeleteAll_args)
  | OpJobMove firstId secondId => ("switch", jobMove_args firstId secondId)
  | OpJobChangeName id newName password =>
      ("queue", ArgsParams (jobChangeName_searchParams id newName password))
  | OpChangeCat id category => ("change_cat", changeCat_args id category)
  | OpChangeScript id script => ("change_script", changeScript_args id script)
  | OpChangePriority id priority => ("queue", changePriority_args id priority)
  | OpChangePostProcessing id postProcessing =>
      ("change_opts", changePostProcessing_args id postProcessing)
  | OpWarningsClear => ("warnings", warningsClear_args)
  | OpGetConfig section keyword =>
      ("get_config", ArgsValue (getConfig_options section keyword))
  | OpSetConfig args => ("set_config", ArgsValue args)
  | OpSetConfigDefault keyword => ("set_config_default", setConfigDefault_args keyword)
  | OpShutdown => ("shutdown", ArgsValue JUndefined)
  | OpRestart => ("restart", ArgsValue JUndefined)
  | OpRestartRepair => ("restart_repair", ArgsValue JUndefined)
  | OpPausePostProcessing => ("pause_pp", ArgsValue JUndefined)
  | OpRssNow => ("rss_now", ArgsValue JUndefined)
  | OpWatchedNow => ("watched_now", ArgsValue JUndefined)
  | OpResetQuota => ("reset_quota", ArgsValue JUndefined)
  end.

(** The request an operation sends. *)
Definition request_of (this : Client) (op : Operation) : URL :=
  methodCall_url this (fst (dispatched op)) (snd (dispatched op)) "json".

(** The name/value pairs [methodCall] is given: the pairs of a
    [URLSearchParams], the enumerable properties of any other truthy value
    with their string forms. *)
Definition supplied (args : Args) : URLSearchParams.t :=
  match args with
  | ArgsParams p => p
  | ArgsValue v =>
      if truthy v
      then map (fun argKey => (argKey, to_string (prop v argKey))) (for_in_keys v)
      else []
  end.

(** The operations whose field names are fixed by the client: all but
    [setConfig], which passes the caller's object on, and
    [setConfigDefault] with more than one keyword. *)
Definition fixed_names (op : Operation) : bool :=
  match op with
  | OpSetConfig _ => false
  | OpSetConfigDefault (ManyStrings l) => (length l <=? 1)%nat
  | _ => true
  end.

(** The four operations that check one field of the decoded response. *)
Inductive CheckedOp : Type := OpVersion | OpAuth | OpGetCats | OpGetScripts.

Definition perform_checked (JSON_parse : string -> Outcome JsValue)
  (got : URL -> Outcome (Promise Response)) (this : Client) (op : CheckedOp)
  : Promise JsValue :=
  match op with
  | OpVersion => version JSON_parse got this
  | OpAuth => auth JSON_parse got this
  | OpGetCats => getCats JSON_parse got this
  | OpGetScripts => getScripts JSON_parse got this
  end.

Definition checked_method (op : CheckedOp) : string :=
  match op with
  | OpVersion => "version"
  | OpAuth => "auth"
  | OpGetCats => "get_cats"
  | OpGetScripts => "get_scripts"
  end.

Definition required_field (op : CheckedOp) : string :=
  match op with
  | OpVersion => "version"
  | OpAuth => "auth"
  | OpGetCats => "categories"
  | OpGetScripts => "scripts"
  end.

(** ** Vocabulary of the further statements *)

(** No two equal names. *)
Fixpoint distinct (l : list string) : bool :=
  match l with
  | [] => true
  | x :: rest => negb (existsb (String.eqb x) rest) && distinct rest
  end.

(** An entry of the decoded warnings the loop of [warnings] accepts. *)
Definition valid_warning (result : JsValue) : bool :=
  negb (nullish result)
  && truthy (prop result "text")
  && strict_equal_string (prop result "type") "WARNING"
  && truthy (prop result "time").

Definition to_warning (result : JsValue) : ErrorWarning :=
  mkErrorWarning (prop result "text") Warning (prop result "time").

(** The first entry of the decoded warnings the loop does not accept. *)
Definition first_invalid (elems : list JsValue) : option JsValue :=
  find (fun result => negb (valid_warning result)) elems.

(** Executor code that does not turn a settled promise into another state:
    [resolve] and [reject] after the first settlement are without effect. *)
Definition keeps_settled {R A : Type} (m : Exec R A) : Prop :=
  forall st, st <> Pending -> fst (m st) = st.

(** Executor code that never calls [reject]. *)
Definition never_rejects {R A : Type} (m : Exec R A) : Prop :=
  forall st, (forall e, st <> Rejected e) -> forall e, fst (m st) <> Rejected e.

(** * Properties *)

(** ** Basic facts about the value model *)

Lemma join_comma_cons (s : string) (l : list string) :
  l <> [] -> join_comma (s :: l) = (s ++ "," ++ join_comma l)%string.
Proof. destruct l; [congruence | reflexivity]. Qed.

Lemma to_string_strings (l : list string) :
  to_string (JArr (map JStr l)) = join_comma l.
Proof.
  simpl. rewrite map_map. simpl.
  induction l as [| s [| s' rest] IH]; try reflexivity.
  change (map (fun x : string => x) (s :: s' :: rest))
    with (s :: map (fun x : string => x) (s' :: rest)).
  rewrite join_comma_cons by discriminate.
  rewrite join_comma_cons by discriminate.
  now rewrite IH.
Qed.

Lemma get_prop_not_nullish (v : JsValue) (k : string) :
  nullish v = false -> get_prop v k = Returns (prop v k).
Proof. unfold get_prop. now intros ->. Qed.

Lemma for_in_keys_nullish (v : JsValue) :
  nullish v = true -> for_in_keys v = [].
Proof. now destruct v. Qed.

(** ** How [methodCall] settles *)

Section MethodCallSettles.

Variable JSON_parse : string -> Outcome JsValue.
Variable got : URL -> Outcome (Promise Response).
Variable this : Client.
Variables (method : string) (args : Args) (output : string).

Let request := methodCall_url this method args output.
Let call := methodCall JSON_parse got this method args output.

Ltac run H :=
  subst call request; unfold methodCall, new_Promise, try_catch, bind, lift, then_, catch_;
  rewrite H; simpl.

Lemma methodCall_transport_throws (e : Thrown) :
  got request = Throws e ->
  call = Rejected (ErrorObj "Error parsing response as JSON").
Proof. intros H. run H. reflexivity. Qed.

Lemma methodCall_transport_pending :
  got request = Returns Pending -> call = Pending.
Proof. intros H. run H. reflexivity. Qed.

Lemma methodCall_transport_rejects (message : string) :
  got request = Returns (Rejected (ErrorObj message)) ->
  call = Rejected (ErrorObj ("Error accessing SABnzbd host: " ++ message)).
Proof. intros H. run H. reflexivity. Qed.

Lemma methodCall_transport_rejects_non_error (v : JsValue) :
  got request = Returns (Rejected (NonError v)) ->
  call = Rejected (ErrorObj "Error accessing SABnzbd host").
Proof. intros H. run H. reflexivity. Qed.

Lemma methodCall_other_status (response : Response) :
  got request = Returns (Fulfilled response) ->
  statusCode response <> 200%Z ->
  call = Pending.
Proof.
  intros H Hs. run H.
  apply Z.eqb_neq in Hs. rewrite Hs. reflexivity.
Qed.

Lemma methodCall_decoded (response : Response) (v : JsValue) :
  got request = Returns (Fulfilled response) ->
  statusCode response = 200%Z ->
  output = "json" ->
  JSON_parse (body response) = Returns v ->
  call = Fulfilled v.
Proof.
  intros H Hs Ho Hp. run H.
  rewrite Hs, Ho, Hp. reflexivity.
Qed.

Lemma methodCall_plain_text (response : Response) :
  got request = Returns (Fulfilled response) ->
  statusCode response = 200%Z ->
  output <> "json" ->
  call = Fulfilled (JStr (body response)).
Proof.
  intros H Hs Ho. run H.
  apply String.eqb_neq in Ho. rewrite Hs, Ho. reflexivity.
Qed.

Lemma methodCall_undecodable (response : Response) (e : Thrown) :
  got request = Returns (Fulfilled response) ->
  statusCode response = 200%Z ->
  output = "json" ->
  JSON_parse (body response) = Throws e ->
  call = Rejected (ErrorObj match e with
                            | ErrorObj message =>
                                "Error accessing SABnzbd host: " ++ message
                            | NonError _ => "Error accessing SABnzbd host"
                            end).
Proof.
  intros H Hs Ho Hp. run H.
  rewrite Hs, Ho, Hp. destruct e; reflexivity.
Qed.

End MethodCallSettles.

(** C1 -- a 200 response whose body [JSON.parse] rejects.  The claim asks
    for a Decode Error that never shows as a Transport Error.  In
    [methodCall] the [SyntaxError] is raised inside the [.then] callback, so
    it rejects the promise [.then] returns and is handled by [.catch]: the
    call fails with the message of the transport family,
    ["Error accessing SABnzbd host: "] followed by the parser's message, and
    not with ["Error parsing response as JSON"], which only a synchronous
    throw of [got] reaches. *)
Theorem methodCall_undecodable_body_is_host_error :
  forall (JSON_parse : string -> Outcome JsValue)
         (got : URL -> Outcome (Promise Response)) (this : Client)
         (method : string) (args : Args) (response : Response) (message : string),
    got (methodCall_url this method args "json") = Returns (Fulfilled response) ->
    statusCode response = 200%Z ->
    JSON_parse (body response) = Throws (ErrorObj message) ->
    exists e : Thrown,
      methodCall JSON_parse got this method args "json" = Rejected e /\
      e = ErrorObj ("Error accessing SABnzbd host: " ++ message) /\
      classify e = Some TransportError /\
      classify e <> Some DecodeError.
Proof.
  intros JSON_parse got this method args response message Hgot Hstatus Hparse.
  exists (ErrorObj ("Error accessing SABnzbd host: " ++ message)).
  split; [| split; [reflexivity | split; [reflexivity | discriminate]]].
  exact (methodCall_undecodable JSON_parse got this method args "json" response
           (ErrorObj message) Hgot Hstatus eq_refl Hparse).
Qed.

Lemma methodCall_undecodable_body_witness :
  exists e : Thrown,
    methodCall Json.parse (got_settles (Fulfilled (mkResponse 200 "<html>")))
      example_client "version" (ArgsValue JUndefined) "json" = Rejected e /\
    e = ErrorObj "Error accessing SABnzbd host: Unexpected token in JSON" /\
    classify e = Some TransportError /\
    classify e <> Some DecodeError.
Proof.
  apply (methodCall_undecodable_body_is_host_error Json.parse
           (got_settles (Fulfilled (mkResponse 200 "<html>")))
           example_client "version" (ArgsValue JUndefined)
           (mkResponse 200 "<html>") "Unexpected token in JSON");
    reflexivity.
Defined.

(** The only way to the message of the decode family. *)
Lemma methodCall_decode_message_only_on_throw
  (JSON_parse : string -> Outcome JsValue) (got : URL -> Outcome (Promise Response))
  (this : Client) (method : string) (args : Args) (output : string) :
  methodCall JSON_parse got this method args output
    = Rejected (ErrorObj "Error parsing response as JSON") ->
  exists e, got (methodCall_url this method args output) = Throws e.
Proof.
  intros H.
  destruct (got (methodCall_url this method args output)) as [p | e] eqn:Hgot;
    [| now exists e].
  exfalso. destruct p as [| response | [message | v]].
  - rewrite (methodCall_transport_pending _ _ _ _ _ _ Hgot) in H. discriminate.
  - destruct (Z.eq_dec (statusCode response) 200) as [Hs | Hs].
    + destruct (String.eqb_spec output "json") as [Ho | Ho].
      * destruct (JSON_parse (body response)) as [v | e] eqn:Hp.
        -- rewrite (methodCall_decoded _ _ _ _ _ _ _ _ Hgot Hs Ho Hp) in H.
           discriminate.
        -- rewrite (methodCall_undecodable _ _ _ _ _ _ _ _ Hgot Hs Ho Hp) in H.
           destruct e; discriminate.
      * rewrite (methodCall_plain_text _ _ _ _ _ _ _ Hgot Hs Ho) in H. discriminate.
    + rewrite (methodCall_other_status _ _ _ _ _ _ _ Hgot Hs) in H. discriminate.
  - rewrite (methodCall_transport_rejects _ _ _ _ _ _ _ Hgot) in H. discriminate.
  - rewrite (methodCall_transport_rejects_non_error _ _ _ _ _ _ _ Hgot) in H.
    discriminate.
Qed.

(** C6 -- a response with a status other than 200.  The claim asks for a
    Transport Error.  got fulfils its promise for every 2xx status, and the
    [.then] callback of [methodCall] has no branch for a status that is not
    200: neither [resolve] nor [reject] is called and the promise stays
    pending, whatever the body. *)
Theorem methodCall_other_status_never_settles :
  forall (JSON_parse : string -> Outcome JsValue)
         (got : URL -> Outcome (Promise Response)) (this : Client)
         (method : string) (args : Args) (output : string) (response : Response),
    got (methodCall_url this method args output) = Returns (Fulfilled response) ->
    statusCode response <> 200%Z ->
    methodCall JSON_parse got this method args output = Pending.
Proof.
  intros. eapply methodCall_other_status; eassumption.
Qed.

Lemma methodCall_other_status_witness :
  methodCall Json.parse (got_settles (Fulfilled (mkResponse 204 EmptyString)))
    example_client "pause" (ArgsValue JUndefined) "json" = Pending.
Proof.
  apply (methodCall_other_status_never_settles Json.parse
           (got_settles (Fulfilled (mkResponse 204 EmptyString)))
           example_client "pause" (ArgsValue JUndefined) "json"
           (mkResponse 204 EmptyString)).
  - reflexivity.
  - simpl. lia.
Defined.

(** The part of C6 the code keeps: a rejected transport promise becomes a
    failure of the transport family that quotes the cause, and the decoder
    plays no part in it. *)
Lemma methodCall_connection_failure
  (JSON_parse JSON_parse' : string -> Outcome JsValue)
  (got : URL -> Outcome (Promise Response)) (this : Client)
  (method : string) (args : Args) (output : string) (cause : string) :
  got (methodCall_url this method args output) = Returns (Rejected (ErrorObj cause)) ->
  methodCall JSON_parse got this method args output
    = Rejected (ErrorObj ("Error accessing SABnzbd host: " ++ cause)) /\
  methodCall JSON_parse' got this method args output
    = methodCall JSON_parse got this method args output.
Proof.
  intros H. split.
  - now apply methodCall_transport_rejects.
  - now rewrite !(methodCall_transport_rejects _ _ _ _ _ _ cause H).
Qed.

(** ** How the public operations settle *)

Section OperationsSettle.

Variable JSON_parse : string -> Outcome JsValue.
Variable got : URL -> Outcome (Promise Response).
Variable this : Client.

Let dispatch := methodCall JSON_parse got this.

Ltac settle :=
  unfold new_Promise_async, async_function, bind, await, lift, resolve, reject, ret.

(** An operation written [new Promise(async (resolve) => { ... await
    this.methodCall(...) ... })] settles only when the dispatch fulfils: a
    rejected dispatch makes [await] throw inside the async executor and the
    promise handed to the caller is left pending. *)
Lemma results_call_settles (method : string) (args : Args) :
  results_call JSON_parse got this method args =
  match dispatch method args "json" with
  | Fulfilled results => Fulfilled results
  | _ => Pending
  end.
Proof.
  unfold results_call, dispatch. settle.
  now destruct (methodCall _ _ _ _ _ _).
Qed.

Lemma version_settles :
  version JSON_parse got this
  = checked_field "version" (dispatch "version" (ArgsValue JUndefined) "json").
Proof.
  unfold version, checked_field, dispatch, get_prop. settle.
  destruct (methodCall _ _ _ _ _ _) as [| results |]; try reflexivity.
  destruct (nullish results); [reflexivity |].
  now destruct (truthy _).
Qed.

Lemma auth_settles :
  auth JSON_parse got this
  = checked_field "auth" (dispatch "auth" (ArgsValue JUndefined) "json").
Proof.
  unfold auth, checked_field, dispatch, get_prop. settle.
  destruct (methodCall _ _ _ _ _ _) as [| results |]; try reflexivity.
  destruct (nullish results); [reflexivity |].
  now destruct (truthy _).
Qed.

Lemma getCats_settles :
  getCats JSON_parse got this
  = checked_field "categories" (dispatch "get_cats" (ArgsValue JUndefined) "json").
Proof.
  unfold getCats, checked_field, dispatch, get_prop. settle.
  destruct (methodCall _ _ _ _ _ _) as [| results |]; try reflexivity.
  destruct (nullish results); [reflexivity |].
  now destruct (truthy _).
Qed.

Lemma getScripts_settles :
  getScripts JSON_parse got this
  = checked_field "scripts" (dispatch "get_scripts" (ArgsValue JUndefined) "json").
Proof.
  unfold getScripts, checked_field, dispatch, get_prop. settle.
  destruct (methodCall _ _ _ _ _ _) as [| results |]; try reflexivity.
  destruct (nullish results); [reflexivity |].
  now destruct (truthy _).
Qed.

Lemma getFiles_settles (id : string) :
  getFiles JSON_parse got this id =
  match dispatch "get_files" (ArgsValue (JObj [("value", JStr id)])) "json" with
  | Fulfilled results =>
      if nullish results then Pending else Fulfilled (prop results "files")
  | _ => Pending
  end.
Proof.
  unfold getFiles, dispatch, get_prop. settle.
  destruct (methodCall _ _ _ _ _ _) as [| results |]; try reflexivity.
  now destruct (nullish results).
Qed.

(** [queue] is an [async] method: what its body throws rejects its
    promise. *)
Lemma queue_settles (start limit : option Z) (search : option string)
  (nzoIds : option (list string)) :
  queue JSON_parse got this start limit search nzoIds =
  match dispatch "queue"
          (ArgsParams (queue_searchParams start limit search nzoIds)) "json" with
  | Fulfilled resultsObj =>
      match get_prop resultsObj "queue" with
      | Returns v => Fulfilled v
      | Throws e => Rejected e
      end
  | Rejected e => Rejected e
  | Pending => Pending
  end.
Proof.
  unfold queue, dispatch. settle.
  destruct (methodCall _ _ _ _ _ _) as [| resultsObj |]; try reflexivity.
  now destruct (get_prop resultsObj "queue").
Qed.

Lemma translateText_settles (text : string) :
  translateText JSON_parse got this text =
  match dispatch "translate" (ArgsValue (JObj [("value", JStr text)])) "json" with
  | Fulfilled results =>
      if nullish results then Pending
      else if truthy (prop results "value") then Pending
           else Rejected (ErrorObj ("Error in API call"
                            ++ (if truthy (prop results "error")
                                then ": " ++ to_string (prop results "error")
                                else EmptyString)))
  | _ => Pending
  end.
Proof.
  unfold translateText, dispatch, get_prop. settle.
  destruct (methodCall _ _ _ _ _ _) as [| results |]; try reflexivity.
  destruct (nullish results); [reflexivity |].
  now destruct (truthy (prop results "value")).
Qed.

End OperationsSettle.

(** ** Required fields of the decoded response *)

(** C3 -- a decoded 200 response that lacks the field an operation needs.
    The claim asks for a Protocol Error and never an undefined result.
    [getFiles] passes [results.files] to [resolve] without looking at it:
    when the decoded object has no [files] field the operation fulfils with
    [undefined]. *)
Theorem getFiles_missing_field_resolves_undefined :
  forall (JSON_parse : string -> Outcome JsValue)
         (got : URL -> Outcome (Promise Response)) (this : Client)
         (id : string) (fields : list (string * JsValue)),
    methodCall JSON_parse got this "get_files" (ArgsValue (JObj [("value", JStr id)]))
      "json" = Fulfilled (JObj fields) ->
    assoc "files" fields = None ->
    getFiles JSON_parse got this id = Fulfilled JUndefined.
Proof.
  intros JSON_parse got this id fields Hcall Hmissing.
  rewrite getFiles_settles, Hcall. simpl. now rewrite Hmissing.
Qed.

Lemma getFiles_missing_field_witness :
  getFiles Json.parse (got_settles (Fulfilled (mkResponse 200 "{}"))) example_client
    "SABnzbd_nzo_ksfai6" = Fulfilled JUndefined.
Proof.
  apply (getFiles_missing_field_resolves_undefined Json.parse
           (got_settles (Fulfilled (mkResponse 200 "{}"))) example_client
           "SABnzbd_nzo_ksfai6" []);
    reflexivity.
Defined.

(** [queue] does the same with [resultsObj.queue]. *)
Lemma queue_missing_field_resolves_undefined
  (JSON_parse : string -> Outcome JsValue) (got : URL -> Outcome (Promise Response))
  (this : Client) (start limit : option Z) (search : option string)
  (nzoIds : option (list string)) (fields : list (string * JsValue)) :
  methodCall JSON_parse got this "queue"
    (ArgsParams (queue_searchParams start limit search nzoIds)) "json"
    = Fulfilled (JObj fields) ->
  assoc "queue" fields = None ->
  queue JSON_parse got this start limit search nzoIds = Fulfilled JUndefined.
Proof.
  intros Hcall Hmissing.
  rewrite queue_settles, Hcall. simpl. now rewrite Hmissing.
Qed.

(** The sibling operations [version], [auth], [getCats] and [getScripts]
    check their field and reject with the message of the protocol family. *)
Lemma checked_field_missing (field : string) (fields : list (string * JsValue)) :
  assoc field fields = None ->
  checked_field field (Fulfilled (JObj fields))
    = Rejected (ErrorObj "Invalid response from SABnzbd").
Proof. intros H. simpl. now rewrite H. Qed.

Lemma version_missing_field_is_protocol_error
  (JSON_parse : string -> Outcome JsValue) (got : URL -> Outcome (Promise Response))
  (this : Client) (fields : list (string * JsValue)) :
  methodCall JSON_parse got this "version" (ArgsValue JUndefined) "json"
    = Fulfilled (JObj fields) ->
  assoc "version" fields = None ->
  exists e, version JSON_parse got this = Rejected e /\
            classify e = Some ProtocolError.
Proof.
  intros Hcall Hmissing. rewrite version_settles, Hcall.
  rewrite checked_field_missing by assumption.
  eexists. split; reflexivity.
Qed.

(** The version scenario of the specification. *)
Example version_scenario :
  version Json.parse
    (got_settles (Fulfilled (mkResponse 200
       (JsonText.stringify (JObj [("version", JStr "3.1.1")])))))
    example_client = Fulfilled (JStr "3.1.1") /\
  version Json.parse (got_settles (Fulfilled (mkResponse 200 "{}"))) example_client
    = Rejected (ErrorObj "Invalid response from SABnzbd").
Proof. split; reflexivity. Qed.

(** A transport failure under an operation with an async executor: the
    dispatch rejects, the operation never settles. *)
Lemma version_transport_failure_is_lost
  (JSON_parse : string -> Outcome JsValue) (got : URL -> Outcome (Promise Response))
  (this : Client) (cause : string) :
  got (methodCall_url this "version" (ArgsValue JUndefined) "json")
    = Returns (Rejected (ErrorObj cause)) ->
  version JSON_parse got this = Pending.
Proof.
  intros H. rewrite version_settles.
  now rewrite (methodCall_transport_rejects _ _ _ _ _ _ cause H).
Qed.

(** ** [translateText] *)

(** C10 -- when the decoded translate response carries a non-empty [value]
    (any truthy value), [translateText] returns from the executor without
    calling [resolve]: the promise stays pending.  It never fulfils, and
    when it is rejected the dispatch had fulfilled with a response whose
    [value] is absent or empty, the error branch. *)
Theorem translateText_value_never_delivered :
  forall (JSON_parse : string -> Outcome JsValue)
         (got : URL -> Outcome (Promise Response)) (this : Client) (text : string),
    let dispatch :=
      methodCall JSON_parse got this "translate"
        (ArgsValue (JObj [("value", JStr text)])) "json" in
    (forall results : JsValue,
        dispatch = Fulfilled results ->
        truthy (prop results "value") = true ->
        translateText JSON_parse got this text = Pending) /\
    (forall (results : JsValue) (translated : string),
        dispatch = Fulfilled results ->
        prop results "value" = JStr translated ->
        translated <> EmptyString ->
        translateText JSON_parse got this text = Pending) /\
    (forall v : JsValue, translateText JSON_parse got this text <> Fulfilled v) /\
    (forall e : Thrown,
        translateText JSON_parse got this text = Rejected e ->
        exists results : JsValue,
          dispatch = Fulfilled results /\ truthy (prop results "value") = false).
Proof.
  intros JSON_parse got this text dispatch.
  assert (Hvalue : forall results,
             dispatch = Fulfilled results ->
             truthy (prop results "value") = true ->
             translateText JSON_parse got this text = Pending).
  { intros results Hcall Hv. rewrite translateText_settles.
    fold dispatch. rewrite Hcall, Hv. now destruct (nullish results). }
  repeat split.
  - exact Hvalue.
  - intros results translated Hcall Hv Hne. apply (Hvalue results Hcall).
    rewrite Hv. simpl. apply String.eqb_neq in Hne. now rewrite Hne.
  - intros v. rewrite translateText_settles. fold dispatch.
    destruct dispatch as [| results |]; try discriminate.
    destruct (nullish results); [discriminate |].
    destruct (truthy (prop results "value")); discriminate.
  - intros e. rewrite translateText_settles. fold dispatch.
    destruct dispatch as [| results |]; try discriminate.
    destruct (nullish results); [discriminate |].
    destruct (truthy (prop results "value")) eqn:Hv; [discriminate |].
    intros _. now exists results.
Qed.

Lemma translateText_value_witness :
  translateText Json.parse
    (got_settles (Fulfilled (mkResponse 200
       (JsonText.stringify (JObj [("value", JStr "Forum")])))))
    example_client "forum" = Pending.
Proof.
  apply (proj1 (translateText_value_never_delivered Json.parse
                  (got_settles (Fulfilled (mkResponse 200
                     (JsonText.stringify (JObj [("value", JStr "Forum")])))))
                  example_client "forum")
           (JObj [("value", JStr "Forum")]));
    reflexivity.
Defined.

(** ** The encoded request *)

Section RequestEncoding.

Variable this : Client.

Lemma fold_left_searchParams_append (g : string -> string) (names : list string) (u : URL) :
  fold_left (fun u name => searchParams_append name (g name) u) names u
  = mkURL (href u) (searchParams u ++ map (fun name => (name, g name)) names).
Proof.
  revert u. induction names as [| name names IH]; intros u; simpl.
  - rewrite app_nil_r. now destruct u.
  - rewrite IH. simpl. unfold URLSearchParams.append.
    now rewrite <- app_assoc.
Qed.

Lemma methodCall_url_params (method : string) (p : URLSearchParams.t) (output : string) :
  methodCall_url this method (ArgsParams p) output
  = mkURL (mHost this ++ "/api") (copied p ++ control_fields this method output).
Proof.
  unfold methodCall_url. rewrite fold_left_searchParams_append.
  unfold searchParams_append, URLSearchParams.append. simpl.
  now rewrite <- !app_assoc.
Qed.

Lemma methodCall_url_value (method : string) (v : JsValue) (output : string) :
  methodCall_url this method (ArgsValue v) output
  = mkURL (mHost this ++ "/api")
      ((if truthy v
        then map (fun argKey => (argKey, to_string (prop v argKey))) (for_in_keys v)
        else []) ++ control_fields this method output).
Proof.
  unfold methodCall_url. destruct (truthy v).
  - rewrite fold_left_searchParams_append.
    unfold searchParams_append, URLSearchParams.append. simpl.
    now rewrite <- !app_assoc.
  - reflexivity.
Qed.

Lemma assoc_first {A : Type} (k : string) (v : A) (l : list (string * A)) :
  ~ In k (map fst l) -> forall front, ~ In k (map fst front) ->
  assoc k (front ++ (k, v) :: l) = Some v.
Proof.
  intros _ front. induction front as [| [k' v'] front IH]; simpl; intros Hfront.
  - now rewrite String.eqb_refl.
  - destruct (String.eqb_spec k' k) as [-> | _]; [tauto |].
    apply IH. tauto.
Qed.

Lemma copied_distinct_names (p : URLSearchParams.t) :
  NoDup (URLSearchParams.keys p) -> copied p = p.
Proof.
  unfold copied, URLSearchParams.keys, URLSearchParams.get.
  assert (H : forall front rest : URLSearchParams.t,
             NoDup (map fst (front ++ rest)) ->
             map (fun param => (param, match assoc param (front ++ rest) with
                                       | Some v => v
                                       | None => EmptyString
                                       end)) (map fst rest) = rest).
  { intros front rest. revert front.
    induction rest as [| [k v] rest IH]; intros front Hnd; [reflexivity |].
    simpl. f_equal.
    - rewrite map_app in Hnd. simpl in Hnd.
      apply NoDup_remove_2 in Hnd.
      rewrite assoc_first; [reflexivity | |];
        intros Hin; apply Hnd, in_or_app; tauto.
    - specialize (IH (front ++ [(k, v)])).
      rewrite <- app_assoc in IH. apply IH. exact Hnd. }
  intros Hnd. exact (H [] p Hnd).
Qed.

(** With argument names that do not repeat, the query is the arguments in
    the order supplied, then the control fields. *)
Lemma methodCall_url_distinct_names (method : string) (p : URLSearchParams.t)
  (output : string) :
  NoDup (URLSearchParams.keys p) ->
  methodCall_url this method (ArgsParams p) output
  = mkURL (mHost this ++ "/api") (p ++ control_fields this method output).
Proof.
  intros Hnd. now rewrite methodCall_url_params, copied_distinct_names.
Qed.

Lemma methodCall_url_object (method : string) (fields : list (string * JsValue))
  (output : string) :
  NoDup (map fst fields) ->
  methodCall_url this method (ArgsValue (JObj fields)) output
  = mkURL (mHost this ++ "/api")
      (map (fun kv => (fst kv, to_string (snd kv))) fields
       ++ control_fields this method output).
Proof.
  intros Hnd. rewrite methodCall_url_value. simpl. f_equal. f_equal.
  assert (H : forall front rest : list (string * JsValue),
             NoDup (map fst (front ++ rest)) ->
             map (fun argKey =>
                    (argKey, to_string match assoc argKey (front ++ rest) with
                                       | Some x => x
                                       | None => JUndefined
                                       end)) (map fst rest)
             = map (fun kv => (fst kv, to_string (snd kv))) rest).
  { intros front rest. revert front.
    induction rest as [| [k v] rest IH]; intros front Hnd'; [reflexivity |].
    simpl. f_equal.
    - rewrite map_app in Hnd'. simpl in Hnd'.
      apply NoDup_remove_2 in Hnd'.
      rewrite assoc_first; [reflexivity | |];
        intros Hin; apply Hnd', in_or_app; tauto.
    - specialize (IH (front ++ [(k, v)])).
      rewrite <- app_assoc in IH. apply IH. exact Hnd'. }
  exact (H [] fields Hnd).
Qed.

(** The round-trip scenario: the request of [queueSort]. *)
Lemma queueSort_request (sortBy : SortOptions) (ascending : bool) :
  methodCall_url this "queue" (queueSort_args sortBy ascending) "json"
  = mkURL (mHost this ++ "/api")
      [("name", "sort"); ("dir", if ascending then "asc" else "desc");
       ("sort", SortOptions_value sortBy);
       ("mode", "queue"); ("output", "json"); ("apikey", mApiKey this)].
Proof. reflexivity. Qed.

End RequestEncoding.

Lemma setConfigDefault_searchParams (l : list string) (p : URLSearchParams.t) :
  fold_left (fun searchParams value => URLSearchParams.append "keyword" value searchParams)
    l p
  = p ++ map (fun value => ("keyword", value)) l.
Proof.
  revert p. induction l as [| value l IH]; intros p; simpl.
  - now rewrite app_nil_r.
  - rewrite IH. unfold URLSearchParams.append. now rewrite <- app_assoc.
Qed.

Lemma copied_keywords (first : string) (rest : list string) :
  copied (map (fun value => ("keyword", value)) (first :: rest))
  = map (fun _ => ("keyword", first)) (first :: rest).
Proof.
  unfold copied, URLSearchParams.keys, URLSearchParams.get.
  rewrite !map_map. apply map_ext. intros value. reflexivity.
Qed.

(** C4 -- the query is the caller's arguments in order, then [mode],
    [output], [apikey].  That is what [methodCall] builds from an object
    and from parameters with distinct names
    ([methodCall_url_object], [methodCall_url_distinct_names],
    [queueSort_request]).  It is not what it builds from the parameters
    [setConfigDefault] supplies for a list of keywords: the copying loop
    reads each value with [args.get(param)], which returns the value of the
    first pair of that name, so every [keyword] pair of the request carries
    the first keyword. *)
Theorem setConfigDefault_request_repeats_first_keyword :
  forall (this : Client) (first : string) (rest : list string),
    setConfigDefault_args (ManyStrings (first :: rest))
      = ArgsParams (map (fun value => ("keyword", value)) (first :: rest)) /\
    methodCall_url this "set_config_default"
      (setConfigDefault_args (ManyStrings (first :: rest))) "json"
      = mkURL (mHost this ++ "/api")
          (map (fun _ => ("keyword", first)) (first :: rest)
           ++ control_fields this "set_config_default" "json").
Proof.
  intros this first rest.
  assert (Hargs : setConfigDefault_args (ManyStrings (first :: rest))
                  = ArgsParams (map (fun value => ("keyword", value)) (first :: rest))).
  { unfold setConfigDefault_args. now rewrite setConfigDefault_searchParams. }
  split; [exact Hargs |].
  now rewrite Hargs, methodCall_url_params, copied_keywords.
Qed.

Example setConfigDefault_two_keywords :
  searchParams (methodCall_url example_client "set_config_default"
                  (setConfigDefault_args (ManyStrings ["username"; "password"])) "json")
  = [("keyword", "username"); ("keyword", "username");
     ("mode", "set_config_default"); ("output", "json"); ("apikey", "apikey")].
Proof. reflexivity. Qed.

(** The claim of C5 fails for [setConfigDefault]: two keywords are sent as
    two [keyword] fields, not as one comma-joined field. *)
Lemma setConfigDefault_list_not_joined :
  ~ single_joined_field "keyword" ["username"; "password"]
      (searchParams (methodCall_url example_client "set_config_default"
                       (setConfigDefault_args (ManyStrings ["username"; "password"]))
                       "json")).
Proof. intros [Hocc _]. vm_compute in Hocc. discriminate. Qed.

Lemma occurrences_app (k : string) (p q : URLSearchParams.t) :
  URLSearchParams.occurrences k (p ++ q)
  = URLSearchParams.occurrences k p + URLSearchParams.occurrences k q.
Proof.
  unfold URLSearchParams.occurrences, URLSearchParams.keys.
  now rewrite map_app, filter_app, length_app.
Qed.

Lemma if_truthy_append {A V : Type} (inj : A -> JsValue) (g : string -> V)
  (append : string -> string -> list (string * V) -> list (string * V))
  (x : option A) (k : string) (f : A -> string) (target : list (string * V)) :
  (forall name value t, append name value t = t ++ [(name, g value)]) ->
  (forall a, f a = to_string (inj a)) ->
  if_truthy inj x (fun a => append k (f a)) target
  = target ++ present g k (match x with Some a => inj a | None => JUndefined end).
Proof.
  intros Happend Hf. unfold if_truthy, present. destruct x as [a |]; simpl.
  - destruct (truthy (inj a)).
    + now rewrite Happend, Hf.
    + now rewrite app_nil_r.
  - now rewrite app_nil_r.
Qed.

Lemma queue_searchParams_fields (start limit : option Z) (search : option string)
  (nzoIds : option (list string)) :
  queue_searchParams start limit search nzoIds
  = present id "start" (of_number start) ++ present id "limit" (of_number limit)
    ++ present id "search" (of_string search)
    ++ present id "nzo_ids" (of_strings nzoIds).
Proof.
  unfold queue_searchParams.
  rewrite !(if_truthy_append _ id URLSearchParams.append);
    try reflexivity; try (intros; apply eq_sym, to_string_strings).
  simpl. now rewrite <- !app_assoc.
Qed.

(** C5, as the code has it -- [jobDelete] and [queue] send a list as one
    field whose value is the elements joined by commas; [setConfigDefault]
    sends a list of [n] keywords as [n] fields named [keyword]. *)
Theorem list_arguments_encoding :
  forall (this : Client) (l : list string),
    single_joined_field "value" l
      (searchParams (methodCall_url this "queue" (jobDelete_args (ManyStrings l)) "json"))
    /\
    (forall (start limit : option Z) (search : option string),
        single_joined_field "nzo_ids" l
          (searchParams (methodCall_url this "queue"
             (ArgsParams (queue_searchParams start limit search (Some l))) "json")))
    /\
    URLSearchParams.occurrences "keyword"
      (searchParams (methodCall_url this "set_config_default"
                       (setConfigDefault_args (ManyStrings l)) "json"))
    = length l.
Proof.
  intros this l. split; [| split].
  - split; reflexivity.
  - intros start limit search.
    rewrite methodCall_url_params, queue_searchParams_fields.
    replace (present id "nzo_ids" (of_strings (Some l)))
      with [("nzo_ids", join_comma l)]
      by (unfold present, of_strings; cbn [truthy]; now rewrite to_string_strings).
    unfold present.
    destruct (truthy (of_number start)), (truthy (of_number limit)),
      (truthy (of_string search)); split; reflexivity.
  - unfold setConfigDefault_args.
    rewrite setConfigDefault_searchParams, methodCall_url_params. simpl.
    rewrite occurrences_app.
    unfold copied, URLSearchParams.occurrences, URLSearchParams.keys.
    rewrite !map_map. simpl.
    induction l as [| value l IH]; [reflexivity |].
    simpl in *. lia.
Qed.

(** What [methodCall] does with the transport: it calls [got] once, with
    the URL it has built, and settles by what that call does. *)
Lemma methodCall_hands_request_to_got (JSON_parse : string -> Outcome JsValue)
  (got : URL -> Outcome (Promise Response)) (this : Client)
  (method : string) (args : Args) (output : string) :
  methodCall JSON_parse got this method args output
  = settled_from JSON_parse output (got (methodCall_url this method args output)).
Proof.
  unfold methodCall, settled_from, new_Promise, try_catch, bind, lift, then_, catch_.
  destruct (got _) as [[| response | [message | v]] | e]; try reflexivity.
  destruct (statusCode response =? 200)%Z; [| reflexivity].
  destruct (output =? "json"); [| reflexivity].
  destruct (JSON_parse (body response)) as [v | [message | v]]; reflexivity.
Qed.

(** [addFile] calls [got.post] once, with [<host>/api] and the form as it
    is after the appends. *)
Lemma addFile_hands_form_to_got_post (JSON_parse : string -> Outcome JsValue)
  (got_post : string -> FormData.t -> Outcome (Promise Response)) (this : Client)
  (formData : FormData.t) (name password cat script : option string)
  (priority : option Priority.t) (postProcess : option PostProcessing.t) :
  addFile JSON_parse got_post this formData name password cat script priority postProcess
  = settled_from JSON_parse "json"
      (got_post (mHost this ++ "/api")%string
         (addFile_formData this formData name password cat script priority
            postProcess)).
Proof.
  unfold addFile, settled_from, new_Promise, try_catch, bind, lift, then_, catch_.
  destruct (got_post _ _) as [[| response | [message | v]] | e]; try reflexivity.
  destruct (statusCode response =? 200)%Z; [| reflexivity].
  simpl.
  destruct (JSON_parse (body response)) as [v | [message | v]]; reflexivity.
Qed.

(** C9 -- every request carries [mode] with the method name, [output] and
    [apikey] with the key of the client.  Whatever the transport and the
    decoder, [methodCall] settles by what [got] does with one request, a
    URL whose query ends with the three fields; [addFile] settles by what
    [got.post] does with one form, the caller's form followed by the three
    fields and then the optional fields. *)
Theorem control_fields_always_sent :
  forall (this : Client),
    (forall (method : string) (args : Args) (output : string),
        let request := methodCall_url this method args output in
        let query := searchParams request in
        (forall (JSON_parse : string -> Outcome JsValue)
                (got : URL -> Outcome (Promise Response)),
            methodCall JSON_parse got this method args output
            = settled_from JSON_parse output (got request)) /\
        (exists arguments, query = arguments ++ control_fields this method output) /\
        In ("mode", method) query /\ In ("output", output) query /\
        In ("apikey", mApiKey this) query)
    /\
    (forall (formData : FormData.t) (name password cat script : option string)
            (priority : option Priority.t) (postProcess : option PostProcessing.t),
        let form :=
          addFile_formData this formData name password cat script priority postProcess in
        (forall (JSON_parse : string -> Outcome JsValue)
                (got_post : string -> FormData.t -> Outcome (Promise Response)),
            addFile JSON_parse got_post this formData name password cat script
              priority postProcess
            = settled_from JSON_parse "json"
                (got_post (mHost this ++ "/api")%string form)) /\
        (exists options,
            form = formData
                   ++ [("mode", FormData.Text "addfile"); ("output", FormData.Text "json");
                       ("apikey", FormData.Text (mApiKey this))]
                   ++ options) /\
        In ("mode", FormData.Text "addfile") form /\
        In ("output", FormData.Text "json") form /\
        In ("apikey", FormData.Text (mApiKey this)) form).
Proof.
  intros this. split.
  - intros method args output request query.
    split; [intros; apply methodCall_hands_request_to_got |].
    assert (H : exists arguments,
               query = arguments ++ control_fields this method output).
    { subst query request. destruct args as [p | v].
      - rewrite methodCall_url_params. now eexists.
      - rewrite methodCall_url_value. now eexists. }
    split; [exact H |].
    destruct H as [arguments ->].
    repeat split; apply in_or_app; right; simpl; tauto.
  - intros formData name password cat script priority postProcess form.
    split; [intros; apply addFile_hands_form_to_got_post |].
    assert (H : exists options,
               form = formData
                      ++ [("mode", FormData.Text "addfile");
                          ("output", FormData.Text "json");
                          ("apikey", FormData.Text (mApiKey this))]
                      ++ options).
    { subst form. unfold addFile_formData, job_options.
      rewrite !(if_truthy_append _ FormData.Text FormData.append);
        try reflexivity.
      unfold FormData.append. rewrite <- !app_assoc. simpl.
      now eexists. }
    split; [exact H |].
    destruct H as [options ->].
    repeat split; apply in_or_app; right; simpl; tauto.
Qed.

(** ** Optional parameters *)

Lemma job_options_fields {V : Type} (g : string -> V)
  (append : string -> string -> list (string * V) -> list (string * V))
  (name password cat script : option string)
  (priority : option Priority.t) (postProcess : option PostProcessing.t)
  (target : list (string * V)) :
  (forall k value t, append k value t = t ++ [(k, g value)]) ->
  job_options append name password cat script priority postProcess target
  = target
    ++ present g "nzbname" (of_string name) ++ present g "password" (of_string password)
    ++ present g "cat" (of_string cat) ++ present g "script" (of_string script)
    ++ present g "priority" (of_priority priority)
    ++ present g "pp" (of_postProcess postProcess).
Proof.
  intros Happend. unfold job_options.
  rewrite !(if_truthy_append _ g append) by (assumption || reflexivity).
  rewrite <- !app_assoc.
  now destruct priority, postProcess.
Qed.

Lemma form_occurrences_app (k : string) (p q : FormData.t) :
  FormData.occurrences k (p ++ q) = FormData.occurrences k p + FormData.occurrences k q.
Proof.
  unfold FormData.occurrences. now rewrite map_app, filter_app, length_app.
Qed.

(** Decide every guard, then compute. *)
Ltac decide_guards :=
  unfold present;
  repeat match goal with
         | |- context [truthy ?v] =>
             lazymatch v with
             | JArr _ => fail
             | JObj _ => fail
             | _ => destruct (truthy v) eqn:?
             end
         end.

(** The guard of every optional parameter is [if( x )]: its field is
    appended once when [truthy] holds of the supplied value and not at all
    otherwise; when appended it carries the string form of the value. *)
Lemma optional_parameter_fields :
  forall (this : Client) (c : OptCall) (k : string) (v : JsValue),
    In (k, v) (optional_parameters c) ->
    FormData.occurrences k (encoded_fields this c)
      = FormData.occurrences k (preset_fields c) + (if truthy v then 1 else 0) /\
    (truthy v = true -> prints_in_decimal v = true ->
     In (k, FormData.Text (to_string v)) (encoded_fields this c)).
Proof.
  intros this c k v Hin.
  destruct c; cbn [optional_parameters job_parameters encoded_fields preset_fields] in *.
  - rewrite methodCall_url_params, queue_searchParams_fields.
    simpl in Hin.
    repeat (destruct Hin as [Hin | Hin]; [injection Hin as <- <- |]); try contradiction;
      decide_guards; (split; [reflexivity | try discriminate; intros _ _; simpl; tauto]).
  - rewrite methodCall_url_params. unfold queuePurge_searchParams.
    rewrite (if_truthy_append _ id URLSearchParams.append) by reflexivity.
    simpl in Hin.
    repeat (destruct Hin as [Hin | Hin]; [injection Hin as <- <- |]); try contradiction;
      fold (of_string search);
      decide_guards; (split; [reflexivity | try discriminate; intros _ _; simpl; tauto]).
  - rewrite methodCall_url_params. unfold addUrl_searchParams.
    rewrite (job_options_fields id URLSearchParams.append) by reflexivity.
    simpl in Hin.
    repeat (destruct Hin as [Hin | Hin]; [injection Hin as <- <- |]); try contradiction;
      decide_guards; (split; [reflexivity | try discriminate; intros _ _; simpl; tauto]).
  - rewrite methodCall_url_params. unfold addPath_searchParams.
    rewrite (job_options_fields id URLSearchParams.append) by reflexivity.
    simpl in Hin.
    repeat (destruct Hin as [Hin | Hin]; [injection Hin as <- <- |]); try contradiction;
      decide_guards; (split; [reflexivity | try discriminate; intros _ _; simpl; tauto]).
  - unfold addFile_formData.
    rewrite (job_options_fields FormData.Text FormData.append) by reflexivity.
    unfold FormData.append. rewrite <- !app_assoc.
    rewrite form_occurrences_app.
    simpl in Hin.
    repeat (destruct Hin as [Hin | Hin]; [injection Hin as <- <- |]); try contradiction;
      decide_guards;
      (split; [reflexivity
              | try discriminate; intros _ _; apply in_or_app; right; simpl; tauto]).
  - rewrite methodCall_url_params. unfold jobChangeName_searchParams.
    rewrite (if_truthy_append _ (@Datatypes.id string) URLSearchParams.append)
      by reflexivity.
    simpl in Hin.
    repeat (destruct Hin as [Hin | Hin]; [injection Hin as <- <- |]); try contradiction;
      fold (of_string password);
      decide_guards; (split; [reflexivity | try discriminate; intros _ _; simpl; tauto]).
  - rewrite methodCall_url_value. unfold getConfig_options, if_truthy.
    simpl in Hin.
    repeat (destruct Hin as [Hin | Hin]; [injection Hin as <- <- |]); try contradiction;
      destruct section as [section |], keyword as [keyword |]; cbn [of_string];
      match goal with
      | |- context [truthy (JObj ?f)] => change (truthy (JObj f)) with true
      end;
      try change (truthy JUndefined) with false; cbv iota;
      decide_guards; (split; [reflexivity | try discriminate; intros _ _; simpl; tauto]).
Qed.

(** The guards depart from the rule "sent if and only if defined and
    non-empty" in both directions: [Priority.Normal] is a defined value and
    [addUrl] leaves [priority] out of the request, since the value is [0];
    an empty list of job identifiers is an empty value and [queue] sends
    [nzo_ids] all the same, with the empty string. *)
Lemma presence_rule_as_worded_fails :
  (let c := CallAddUrl "http://example.com/job.nzb" None None None None
              (Some Priority.Normal) None in
   In ("priority", JNum 0) (optional_parameters c) /\
   defined_nonempty (JNum 0) = true /\
   FormData.occurrences "priority" (encoded_fields example_client c) = 0) /\
  (let c := CallQueue None None None (Some []) in
   In ("nzo_ids", JArr []) (optional_parameters c) /\
   defined_nonempty (JArr []) = false /\
   In ("nzo_ids", FormData.Text EmptyString) (encoded_fields example_client c)).
Proof.
  split; (split; [simpl; tauto | split; [reflexivity |]]).
  - reflexivity.
  - simpl. tauto.
Qed.

(** C2 -- an optional parameter the caller supplies must appear in the
    request.  The guards are [if( x )], and the number [0] is falsy: a
    parameter supplied as [0] ([Priority.Normal], [PostProcessing.None],
    a [start] or [limit] of zero) is a defined value and yet its field is
    not appended, in every operation with optional parameters. *)
Theorem zero_valued_parameter_is_dropped :
  forall (this : Client) (c : OptCall) (k : string),
    In (k, JNum 0) (optional_parameters c) ->
    defined_nonempty (JNum 0) = true /\
    FormData.occurrences k (encoded_fields this c)
    = FormData.occurrences k (preset_fields c).
Proof.
  intros this c k Hin. split; [reflexivity |].
  destruct (optional_parameter_fields this c k (JNum 0) Hin) as [Hocc _].
  rewrite Hocc. simpl. lia.
Qed.

Lemma zero_valued_parameter_witness :
  let c := CallAddUrl "http://example.com/job.nzb" None None None None
             (Some Priority.Normal) None in
  defined_nonempty (JNum 0) = true /\
  FormData.occurrences "priority" (encoded_fields example_client c)
  = FormData.occurrences "priority" (preset_fields c).
Proof.
  apply (zero_valued_parameter_is_dropped example_client
           (CallAddUrl "http://example.com/job.nzb" None None None None
              (Some Priority.Normal) None)
           "priority").
  simpl. tauto.
Defined.

(** ** Maps built by loops *)

Section MapFacts.

Context {V : Type}.

Lemma get_set (k k' : string) (v : V) (m : JsMap.t V) :
  JsMap.get k' (JsMap.set k v m) = if k =? k' then Some v else JsMap.get k' m.
Proof.
  unfold JsMap.get. induction m as [| [k0 v0] m IH]; simpl.
  - reflexivity.
  - destruct (String.eqb_spec k0 k) as [-> | Hne]; simpl.
    + now destruct (k =? k').
    + rewrite IH. destruct (String.eqb_spec k0 k') as [<- | _]; [| reflexivity].
      destruct (String.eqb_spec k k0); congruence.
Qed.

Lemma keys_set (k : string) (v : V) (m : JsMap.t V) :
  JsMap.keys (JsMap.set k v m)
  = if existsb (String.eqb k) (JsMap.keys m) then JsMap.keys m else JsMap.keys m ++ [k].
Proof.
  unfold JsMap.keys. induction m as [| [k0 v0] m IH]; simpl.
  - reflexivity.
  - rewrite (String.eqb_sym k k0).
    destruct (String.eqb_spec k0 k) as [-> | Hne]; simpl.
    + reflexivity.
    + rewrite IH. now destruct (existsb _ _).
Qed.

Lemma existsb_eqb_In (k : string) (l : list string) :
  existsb (String.eqb k) l = true <-> In k l.
Proof.
  rewrite existsb_exists. split.
  - intros [x [Hin Heq]]. apply String.eqb_eq in Heq. now subst.
  - intros Hin. exists k. split; [assumption | apply String.eqb_refl].
Qed.

Lemma in_keys_set (k k' : string) (v : V) (m : JsMap.t V) :
  In k' (JsMap.keys (JsMap.set k v m)) <-> k' = k \/ In k' (JsMap.keys m).
Proof.
  rewrite keys_set.
  destruct (existsb (String.eqb k) (JsMap.keys m)) eqn:Hex.
  - apply existsb_eqb_In in Hex. split; [tauto |].
    intros [-> | H]; assumption.
  - rewrite in_app_iff. simpl. split; intros H; intuition congruence.
Qed.

Lemma NoDup_keys_set (k : string) (v : V) (m : JsMap.t V) :
  NoDup (JsMap.keys m) -> NoDup (JsMap.keys (JsMap.set k v m)).
Proof.
  intros Hnd. rewrite keys_set.
  destruct (existsb (String.eqb k) (JsMap.keys m)) eqn:Hex; [assumption |].
  apply NoDup_app; [assumption | repeat constructor; simpl; tauto |].
  intros x Hx [<- | []].
  apply existsb_eqb_In in Hx. congruence.
Qed.

Variable f : string -> V.

Lemma get_build (k : string) (names : list string) (m : JsMap.t V) :
  JsMap.get k (build f names m)
  = if existsb (String.eqb k) names then Some (f k) else JsMap.get k m.
Proof.
  unfold build. revert m. induction names as [| name names IH]; intros m; simpl.
  - reflexivity.
  - rewrite IH, get_set. rewrite (String.eqb_sym k name).
    destruct (String.eqb_spec name k) as [-> | _]; simpl.
    + now destruct (existsb _ _).
    + reflexivity.
Qed.

Lemma in_keys_build (k : string) (names : list string) (m : JsMap.t V) :
  In k (JsMap.keys (build f names m)) <-> In k names \/ In k (JsMap.keys m).
Proof.
  unfold build. revert m. induction names as [| name names IH]; intros m; simpl.
  - tauto.
  - rewrite IH, in_keys_set. intuition congruence.
Qed.

Lemma NoDup_keys_build (names : list string) (m : JsMap.t V) :
  NoDup (JsMap.keys m) -> NoDup (JsMap.keys (build f names m)).
Proof.
  unfold build. revert m. induction names as [| name names IH]; intros m Hnd; simpl.
  - assumption.
  - apply IH, NoDup_keys_set, Hnd.
Qed.

(** Source names that do not repeat come out in the order they went in. *)
Lemma keys_build_distinct (names : list string) (m : JsMap.t V) :
  NoDup names ->
  (forall k, In k names -> ~ In k (JsMap.keys m)) ->
  JsMap.keys (build f names m) = JsMap.keys m ++ names.
Proof.
  unfold build. revert m. induction names as [| name names IH]; intros m Hnd Hfresh; simpl.
  - now rewrite app_nil_r.
  - inversion Hnd as [| ? ? Hnotin Hnd']; subst.
    assert (Hks : JsMap.keys (JsMap.set name (f name) m) = JsMap.keys m ++ [name]).
    { rewrite keys_set.
      destruct (existsb (String.eqb name) (JsMap.keys m)) eqn:Hex; [| reflexivity].
      apply existsb_eqb_In in Hex. exfalso. apply (Hfresh name); simpl; tauto. }
    rewrite IH; [| assumption |].
    + rewrite Hks. now rewrite <- app_assoc.
    + intros k Hk. rewrite Hks, in_app_iff. simpl.
      intros [Hin | [<- | []]]; [| contradiction].
      apply (Hfresh k); simpl; tauto.
Qed.

Lemma size_build_distinct (names : list string) :
  NoDup names -> JsMap.size (build f names JsMap.empty) = length names.
Proof.
  intros Hnd. unfold JsMap.size.
  rewrite <- (length_map fst (build f names JsMap.empty)).
  change (map fst (build f names JsMap.empty))
    with (JsMap.keys (build f names JsMap.empty)).
  rewrite keys_build_distinct; [reflexivity | assumption | intros ? _ []].
Qed.

End MapFacts.

Lemma build_same_dates (src : JsValue) (g : string -> JsValue) :
  same_dates src (build g (for_in_keys src) JsMap.empty).
Proof.
  split.
  - intros date Hin.
    apply NoDup_count_occ'.
    + apply NoDup_keys_build. constructor.
    + apply in_keys_build. now left.
  - intros date Hin. apply in_keys_build in Hin. destruct Hin as [H | []]. exact H.
Qed.

(** ** Running the loops of [serverStats] *)

Lemma for_each_pure {R A S : Type} (f : S -> A -> S) (body : S -> A -> Exec R S)
  (l : list A) :
  (forall s x st, In x l -> body s x st = (st, Normal (f s x))) ->
  forall s st, for_each l body s st = (st, Normal (fold_left f l s)).
Proof.
  induction l as [| x l IH]; intros Hbody s st; simpl.
  - reflexivity.
  - unfold bind. rewrite Hbody by (simpl; tauto).
    apply IH. intros s' y st' Hy. apply Hbody. simpl. tauto.
Qed.

Lemma in_for_in_keys_not_nullish (v : JsValue) (k : string) :
  In k (for_in_keys v) -> nullish v = false.
Proof. destruct v; simpl; tauto. Qed.

Lemma bind_get_prop {R B : Type} (v : JsValue) (k : string)
  (K : JsValue -> Exec R B) (st : Promise R) :
  nullish v = false ->
  bind (lift (get_prop v k)) K st = K (prop v k) st.
Proof.
  intros H. unfold bind, lift. now rewrite get_prop_not_nullish.
Qed.

Lemma bind_for_each {R A S B : Type} (f : S -> A -> S) (body : S -> A -> Exec R S)
  (l : list A) (s : S) (K : S -> Exec R B) (st : Promise R) :
  (forall s x st, In x l -> body s x st = (st, Normal (f s x))) ->
  bind (for_each l body s) K st = K (fold_left f l s) st.
Proof.
  intros H. unfold bind. now rewrite (for_each_pure f body l H).
Qed.

Lemma fold_set_daily (g : string -> JsValue) (l : list string) (s : ServerStats) :
  fold_left (fun server date => set_daily (JsMap.set date (g date) (daily server)) server)
    l s
  = set_daily (build g l (daily s)) s.
Proof.
  unfold build. revert s. induction l as [| date l IH]; intros s; simpl.
  - now destruct s.
  - now rewrite IH.
Qed.

Lemma fold_set_articles_tried (g : string -> JsValue) (l : list string) (s : ServerStats) :
  fold_left (fun server date =>
               set_articles_tried (JsMap.set date (g date) (articles_tried server)) server)
    l s
  = set_articles_tried (build g l (articles_tried s)) s.
Proof.
  unfold build. revert s. induction l as [| date l IH]; intros s; simpl.
  - now destruct s.
  - now rewrite IH.
Qed.

Lemma fold_set_articles_success (g : string -> JsValue) (l : list string)
  (s : ServerStats) :
  fold_left (fun server date =>
               set_articles_success (JsMap.set date (g date) (articles_success server))
                 server)
    l s
  = set_articles_success (build g l (articles_success s)) s.
Proof.
  unfold build. revert s. induction l as [| date l IH]; intros s; simpl.
  - now destruct s.
  - now rewrite IH.
Qed.

Lemma fold_set_servers (g : string -> ServerStats) (l : list string) (s : Stats) :
  fold_left (fun stats name => set_servers (JsMap.set name (g name) (servers stats)) stats)
    l s
  = set_servers (build g l (servers s)) s.
Proof.
  unfold build. revert s. induction l as [| name l IH]; intros s; simpl.
  - now destruct s.
  - now rewrite IH.
Qed.

(** One round of the outer loop, for a server entry the loops can read. *)
Lemma serverStats_server_runs (serversObj : JsValue) (stats : Stats)
  (serverName : string) (st : Promise Stats) :
  nullish serversObj = false ->
  server_wellformed (prop serversObj serverName) = true ->
  serverStats_server serversObj stats serverName st
  = (st, Normal (set_servers
                   (JsMap.set serverName (projected_server (prop serversObj serverName))
                      (servers stats)) stats)).
Proof.
  intros Hservers Hwf.
  apply andb_true_iff in Hwf. destruct Hwf as [Hserver Htried].
  apply negb_true_iff in Hserver.
  unfold serverStats_server.
  rewrite (bind_get_prop _ _ _ _ Hservers).
  set (serverResult := prop serversObj serverName) in *.
  rewrite !(bind_get_prop serverResult _ _ _ Hserver).
  rewrite (bind_for_each
             (fun server date =>
                set_daily (JsMap.set date (prop (prop serverResult "daily") date)
                             (daily server)) server)).
  2: { intros s x st' Hx. apply in_for_in_keys_not_nullish in Hx.
       now rewrite bind_get_prop. }
  rewrite (bind_get_prop serverResult _ _ _ Hserver).
  rewrite (bind_for_each
             (fun server date =>
                set_articles_tried
                  (JsMap.set date (prop (prop serverResult "articles_tried") date)
                     (articles_tried server)) server)).
  2: { intros s x st' Hx. apply in_for_in_keys_not_nullish in Hx.
       now rewrite bind_get_prop. }
  rewrite (bind_get_prop serverResult _ _ _ Hserver).
  rewrite (bind_for_each
             (fun server date =>
                set_articles_success
                  (JsMap.set date (prop (prop serverResult "articles_tried") date)
                     (articles_success server)) server)).
  2: { intros s x st' Hx.
       apply orb_true_iff in Htried. destruct Htried as [Htried | Hempty].
       - apply negb_true_iff in Htried. now rewrite bind_get_prop.
       - apply Nat.eqb_eq in Hempty.
         destruct (for_in_keys (prop serverResult "articles_success"));
           [destruct Hx | discriminate]. }
  rewrite fold_set_daily, fold_set_articles_tried, fold_set_articles_success.
  reflexivity.
Qed.

Section ServerStatsRuns.

Variable JSON_parse : string -> Outcome JsValue.
Variable got : URL -> Outcome (Promise Response).
Variable this : Client.

(** On a decoded response of the expected shape the operation fulfils, with
    the projection. *)
Lemma serverStats_fulfils (results : JsValue) :
  methodCall JSON_parse got this "server_stats" (ArgsValue JUndefined) "json"
    = Fulfilled results ->
  stats_wellformed results = true ->
  serverStats JSON_parse got this = Fulfilled (projected_stats results).
Proof.
  intros Hcall Hwf.
  apply andb_true_iff in Hwf. destruct Hwf as [Hresults Hservers].
  apply negb_true_iff in Hresults.
  rewrite forallb_forall in Hservers.
  unfold serverStats, new_Promise_async.
  rewrite Hcall.
  unfold bind at 1. unfold await.
  rewrite !(bind_get_prop results _ _ _ Hresults).
  rewrite (bind_for_each
             (fun stats name =>
                set_servers
                  (JsMap.set name (projected_server (prop (prop results "servers") name))
                     (servers stats)) stats)).
  2: { intros s x st' Hx. apply serverStats_server_runs.
       - now apply in_for_in_keys_not_nullish in Hx.
       - now apply Hservers. }
  rewrite fold_set_servers. reflexivity.
Qed.

End ServerStatsRuns.

(** ** When [serverStats] produces a result

    The loops never call [resolve] or [reject]; the only settlement is the
    [resolve(stats)] after them.  So the operation fulfils exactly on the
    decoded responses the loops can read to the end. *)

Lemma silent_ret {R A : Type} (a : A) : silent (@ret R A a).
Proof. now intros st. Qed.

Lemma silent_lift {R A : Type} (o : Outcome A) : silent (@lift R A o).
Proof. intros st. now destruct o. Qed.

Lemma silent_bind {R A B : Type} (m : Exec R A) (k : A -> Exec R B) :
  silent m -> (forall a, silent (k a)) -> silent (bind m k).
Proof.
  intros Hm Hk st. unfold bind. specialize (Hm st).
  destruct (m st) as [st' [a | e |]]; simpl in *; subst; try reflexivity.
  apply Hk.
Qed.

Lemma silent_for_each {R A S : Type} (l : list A) (body : S -> A -> Exec R S) (s : S) :
  (forall s x, silent (body s x)) -> silent (for_each l body s).
Proof.
  intros Hbody. revert s. induction l as [| x l IH]; intros s; simpl.
  - apply silent_ret.
  - apply silent_bind; [apply Hbody | apply IH].
Qed.

Lemma silent_serverStats_server (serversObj : JsValue) (stats : Stats) (name : string) :
  silent (serverStats_server serversObj stats name).
Proof.
  unfold serverStats_server.
  repeat first
    [ apply silent_ret
    | apply silent_lift
    | apply silent_for_each; intros
    | apply silent_bind; [| intros] ].
Qed.

Lemma for_each_normal {R A S : Type} (l : list A) (body : S -> A -> Exec R S) :
  forall s st st' s',
    for_each l body s st = (st', Normal s') ->
    forall x, In x l -> exists s0 st0 s1 st1, body s0 x st0 = (st1, Normal s1).
Proof.
  induction l as [| y l IH]; intros s st st' s' Hrun x Hx; [destruct Hx |].
  simpl in Hrun. unfold bind in Hrun.
  destruct (body s y st) as [st1 [s1 | e |]] eqn:Hbody; try discriminate.
  destruct Hx as [<- | Hx].
  - now exists s, st, s1, st1.
  - eapply IH; eassumption.
Qed.

Lemma bind_throws {R A B : Type} (e : Thrown) (K : A -> Exec R B) (st : Promise R) :
  bind (lift (Throws e)) K st = (st, Throw e).
Proof. reflexivity. Qed.

Lemma serverStats_server_normal (serversObj : JsValue) (stats stats' : Stats)
  (name : string) (st st' : Promise Stats) :
  nullish serversObj = false ->
  serverStats_server serversObj stats name st = (st', Normal stats') ->
  server_wellformed (prop serversObj name) = true.
Proof.
  intros Hservers Hrun.
  unfold server_wellformed.
  destruct (nullish (prop serversObj name)) eqn:Hserver.
  - exfalso. unfold serverStats_server in Hrun.
    rewrite (bind_get_prop _ _ _ _ Hservers) in Hrun.
    unfold get_prop at 1 in Hrun. rewrite Hserver in Hrun.
    rewrite bind_throws in Hrun. discriminate.
  - simpl.
    destruct (nullish (prop (prop serversObj name) "articles_tried")) eqn:Htried;
      [| reflexivity].
    simpl.
    destruct (for_in_keys (prop (prop serversObj name) "articles_success"))
      as [| date dates] eqn:Hdates; [reflexivity |].
    exfalso. unfold serverStats_server in Hrun.
    rewrite (bind_get_prop _ _ _ _ Hservers) in Hrun.
    set (serverResult := prop serversObj name) in *.
    rewrite !(bind_get_prop serverResult _ _ _ Hserver) in Hrun.
    rewrite (bind_for_each
               (fun server date =>
                  set_daily (JsMap.set date (prop (prop serverResult "daily") date)
                               (daily server)) server)) in Hrun.
    2: { intros s x st0 Hx. apply in_for_in_keys_not_nullish in Hx.
         now rewrite bind_get_prop. }
    rewrite (bind_get_prop serverResult _ _ _ Hserver) in Hrun.
    rewrite (for_in_keys_nullish _ Htried) in Hrun.
    unfold for_each at 1 in Hrun. unfold bind at 1, ret at 1 in Hrun.
    rewrite (bind_get_prop serverResult _ _ _ Hserver) in Hrun.
    rewrite Hdates in Hrun.
    simpl for_each in Hrun.
    unfold get_prop in Hrun. rewrite Htried in Hrun.
    unfold bind, lift in Hrun. discriminate.
Qed.

Section ServerStatsResult.

Variable JSON_parse : string -> Outcome JsValue.
Variable got : URL -> Outcome (Promise Response).
Variable this : Client.

Lemma serverStats_result (stats : Stats) :
  serverStats JSON_parse got this = Fulfilled stats <->
  exists results : JsValue,
    methodCall JSON_parse got this "server_stats" (ArgsValue JUndefined) "json"
      = Fulfilled results /\
    stats_wellformed results = true /\
    stats = projected_stats results.
Proof.
  split.
  - intros Hrun.
    destruct (methodCall JSON_parse got this "server_stats" (ArgsValue JUndefined) "json")
      as [| results | e] eqn:Hcall;
      try (unfold serverStats, new_Promise_async in Hrun; rewrite Hcall in Hrun;
           discriminate).
    exists results. split; [reflexivity |].
    assert (Hwf : stats_wellformed results = true).
    { unfold stats_wellformed.
      unfold serverStats, new_Promise_async in Hrun. rewrite Hcall in Hrun.
      unfold bind at 1 in Hrun. unfold await in Hrun.
      destruct (nullish results) eqn:Hresults.
      - exfalso. unfold get_prop at 1 in Hrun. rewrite Hresults in Hrun.
        rewrite bind_throws in Hrun. discriminate.
      - simpl. rewrite !(bind_get_prop results _ _ _ Hresults) in Hrun.
        unfold bind in Hrun.
        match type of Hrun with
        | context [for_each ?names ?body ?init ?st0] =>
            pose proof (silent_for_each names body init
                          (fun acc name => silent_serverStats_server _ acc name) st0)
              as Hsilent;
            destruct (for_each names body init st0) as [st' [s' | e |]] eqn:Hloop
        end; simpl in Hsilent; subst st'; try discriminate.
        apply forallb_forall. intros name Hname.
        destruct (for_each_normal _ _ _ _ _ _ Hloop name Hname)
          as (s0 & st0 & s1 & st1 & Hbody).
        eapply serverStats_server_normal; [| exact Hbody].
        now apply in_for_in_keys_not_nullish in Hname. }
    split; [exact Hwf |].
    rewrite (serverStats_fulfils _ _ _ results Hcall Hwf) in Hrun.
    congruence.
  - intros (results & Hcall & Hwf & ->).
    now apply serverStats_fulfils.
Qed.

End ServerStatsResult.

(** ** The statistics projection *)

Lemma lookup_projected (field : ServerStats -> JsMap.t JsValue) (results : JsValue)
  (serverName date : string) :
  In serverName (for_in_keys (prop results "servers")) ->
  lookup field (projected_stats results) serverName date
  = JsMap.get date
      (field (projected_server (prop (prop results "servers") serverName))).
Proof.
  intros Hin. unfold lookup, projected_stats. simpl servers.
  rewrite get_build.
  apply existsb_eqb_In in Hin. now rewrite Hin.
Qed.

(** C7 -- for every server and every date key of its [articles_success]
    source object, the entry of the output [articles_success] lookup at
    that key is the value the [articles_tried] source object has at that
    key ([undefined] when it has none); the values of the
    [articles_success] source object are not read. *)
Theorem articles_success_filled_from_articles_tried :
  forall (JSON_parse : string -> Outcome JsValue)
         (got : URL -> Outcome (Promise Response)) (this : Client) (results : JsValue),
    methodCall JSON_parse got this "server_stats" (ArgsValue JUndefined) "json"
      = Fulfilled results ->
    stats_wellformed results = true ->
    exists stats : Stats,
      serverStats JSON_parse got this = Fulfilled stats /\
      forall serverName date : string,
        let serverResult := prop (prop results "servers") serverName in
        In serverName (for_in_keys (prop results "servers")) ->
        In date (for_in_keys (prop serverResult "articles_success")) ->
        lookup articles_success stats serverName date
        = Some (prop (prop serverResult "articles_tried") date).
Proof.
  intros JSON_parse got this results Hcall Hwf.
  exists (projected_stats results). split.
  - now apply serverStats_fulfils.
  - intros serverName date serverResult Hserver Hdate.
    rewrite lookup_projected by assumption.
    unfold projected_server. simpl articles_success.
    rewrite get_build.
    apply existsb_eqb_In in Hdate. fold serverResult. now rewrite Hdate.
Qed.

Lemma articles_success_witness :
  exists stats : Stats,
    serverStats Json.parse
      (got_settles (Fulfilled (mkResponse 200 (JsonText.stringify stats_response))))
      example_client = Fulfilled stats /\
    forall serverName date : string,
      let serverResult := prop (prop stats_response "servers") serverName in
      In serverName (for_in_keys (prop stats_response "servers")) ->
      In date (for_in_keys (prop serverResult "articles_success")) ->
      lookup articles_success stats serverName date
      = Some (prop (prop serverResult "articles_tried") date).
Proof.
  apply (articles_success_filled_from_articles_tried Json.parse
           (got_settles (Fulfilled (mkResponse 200 (JsonText.stringify stats_response))))
           example_client stats_response).
  - vm_compute. reflexivity.
  - vm_compute. reflexivity.
Defined.

(** In the scenario the source has 109 successes out of 110 tries on the
    first day of the first server; the output reports 110 successes. *)
Example articles_success_scenario :
  exists stats : Stats,
    serverStats Json.parse
      (got_settles (Fulfilled (mkResponse 200 (JsonText.stringify stats_response))))
      example_client = Fulfilled stats /\
    prop (prop (prop (prop stats_response "servers") "news.example.com")
            "articles_success") "2021-05-01" = JNum 109 /\
    lookup articles_tried stats "news.example.com" "2021-05-01" = Some (JNum 110) /\
    lookup articles_success stats "news.example.com" "2021-05-01" = Some (JNum 110).
Proof.
  exists (projected_stats stats_response).
  repeat split; vm_compute; reflexivity.
Qed.

(** C8 -- for every server and each of the three date-keyed source objects,
    the output lookup has exactly the date keys of the source object, each
    once, whatever their order in the source. *)
Theorem statistics_lookups_keep_every_date_once :
  forall (JSON_parse : string -> Outcome JsValue)
         (got : URL -> Outcome (Promise Response)) (this : Client) (results : JsValue),
    methodCall JSON_parse got this "server_stats" (ArgsValue JUndefined) "json"
      = Fulfilled results ->
    stats_wellformed results = true ->
    exists stats : Stats,
      serverStats JSON_parse got this = Fulfilled stats /\
      forall serverName : string,
        In serverName (for_in_keys (prop results "servers")) ->
        exists server : ServerStats,
          JsMap.get serverName (servers stats) = Some server /\
          count_occ string_dec (JsMap.keys (servers stats)) serverName = 1 /\
          let serverResult := prop (prop results "servers") serverName in
          same_dates (prop serverResult "daily") (daily server) /\
          same_dates (prop serverResult "articles_tried") (articles_tried server) /\
          same_dates (prop serverResult "articles_success") (articles_success server) /\
          (NoDup (for_in_keys (prop serverResult "daily")) ->
           JsMap.size (daily server)
           = length (for_in_keys (prop serverResult "daily"))) /\
          (NoDup (for_in_keys (prop serverResult "articles_tried")) ->
           JsMap.size (articles_tried server)
           = length (for_in_keys (prop serverResult "articles_tried"))) /\
          (NoDup (for_in_keys (prop serverResult "articles_success")) ->
           JsMap.size (articles_success server)
           = length (for_in_keys (prop serverResult "articles_success"))).
Proof.
  intros JSON_parse got this results Hcall Hwf.
  exists (projected_stats results). split.
  - now apply serverStats_fulfils.
  - intros serverName Hserver.
    exists (projected_server (prop (prop results "servers") serverName)).
    split; [| split].
    + unfold projected_stats. simpl servers. rewrite get_build.
      apply existsb_eqb_In in Hserver. now rewrite Hserver.
    + unfold projected_stats. simpl servers.
      apply NoDup_count_occ'.
      * apply NoDup_keys_build. constructor.
      * apply in_keys_build. now left.
    + unfold projected_server. cbn [daily articles_tried articles_success].
      repeat split;
        try (apply build_same_dates);
        try (intros Hnd; now apply size_build_distinct).
Qed.

Lemma statistics_lookups_witness :
  exists stats : Stats,
    serverStats Json.parse
      (got_settles (Fulfilled (mkResponse 200 (JsonText.stringify stats_response))))
      example_client = Fulfilled stats /\
    forall serverName : string,
      In serverName (for_in_keys (prop stats_response "servers")) ->
      exists server : ServerStats,
        JsMap.get serverName (servers stats) = Some server /\
        count_occ string_dec (JsMap.keys (servers stats)) serverName = 1 /\
        let serverResult := prop (prop stats_response "servers") serverName in
        same_dates (prop serverResult "daily") (daily server) /\
        same_dates (prop serverResult "articles_tried") (articles_tried server) /\
        same_dates (prop serverResult "articles_success") (articles_success server) /\
        (NoDup (for_in_keys (prop serverResult "daily")) ->
         JsMap.size (daily server)
         = length (for_in_keys (prop serverResult "daily"))) /\
        (NoDup (for_in_keys (prop serverResult "articles_tried")) ->
         JsMap.size (articles_tried server)
         = length (for_in_keys (prop serverResult "articles_tried"))) /\
        (NoDup (for_in_keys (prop serverResult "articles_success")) ->
         JsMap.size (articles_success server)
         = length (for_in_keys (prop serverResult "articles_success"))).
Proof.
  apply (statistics_lookups_keep_every_date_once Json.parse
           (got_settles (Fulfilled (mkResponse 200 (JsonText.stringify stats_response))))
           example_client stats_response).
  - vm_compute. reflexivity.
  - vm_compute. reflexivity.
Defined.

(** The scenario of the specification: two servers with three dates each
    give six entries per field, and the response with every object's keys
    in another order gives the same lookups. *)
Example statistics_scenario :
  exists stats shuffled : Stats,
    serverStats Json.parse
      (got_settles (Fulfilled (mkResponse 200 (JsonText.stringify stats_response))))
      example_client = Fulfilled stats /\
    serverStats Json.parse
      (got_settles
         (Fulfilled (mkResponse 200 (JsonText.stringify stats_response_shuffled))))
      example_client = Fulfilled shuffled /\
    Forall (fun field => entries field stats = 6 /\ entries field shuffled = 6)
      [daily; articles_tried; articles_success] /\
    Forall (fun field =>
      Forall (fun serverName =>
        Forall (fun date =>
          lookup field stats serverName date = lookup field shuffled serverName date /\
          lookup field stats serverName date <> None)
          ["2021-05-01"; "2021-05-02"; "2021-05-03"])
        ["news.example.com"; "news.example.org"])
      [daily; articles_tried; articles_success].
Proof.
  exists (projected_stats stats_response), (projected_stats stats_response_shuffled).
  split; [vm_compute; reflexivity |].
  split; [vm_compute; reflexivity |].
  split; repeat constructor; vm_compute; (reflexivity || discriminate).
Qed.

(** * Further properties *)

(** ** The outcomes of [methodCall] *)

Section MethodCallOutcomes.

Variable JSON_parse : string -> Outcome JsValue.
Variable got : URL -> Outcome (Promise Response).
Variable this : Client.
Variables (method : string) (args : Args) (output : string).

(** The state [methodCall] ends in, by cases on what the transport did. *)
Lemma methodCall_cases :
  methodCall JSON_parse got this method args output =
  match got (methodCall_url this method args output) with
  | Throws _ => Rejected (ErrorObj "Error parsing response as JSON")
  | Returns Pending => Pending
  | Returns (Rejected (ErrorObj message)) =>
      Rejected (ErrorObj ("Error accessing SABnzbd host: " ++ message))
  | Returns (Rejected (NonError _)) => Rejected (ErrorObj "Error accessing SABnzbd host")
  | Returns (Fulfilled response) =>
      if (statusCode response =? 200)%Z then
        if output =? "json" then
          match JSON_parse (body response) with
          | Returns v => Fulfilled v
          | Throws (ErrorObj message) =>
              Rejected (ErrorObj ("Error accessing SABnzbd host: " ++ message))
          | Throws (NonError _) => Rejected (ErrorObj "Error accessing SABnzbd host")
          end
        else Fulfilled (JStr (body response))
      else Pending
  end.
Proof.
  unfold methodCall, new_Promise, try_catch, bind, lift, then_, catch_.
  destruct (got _) as [[| response | [message | v]] | e]; try reflexivity.
  destruct (statusCode response =? 200)%Z; [| reflexivity].
  destruct (output =? "json"); [| reflexivity].
  destruct (JSON_parse (body response)) as [v | [message | v]]; reflexivity.
Qed.

(** X1 -- [methodCall] fulfils exactly when the transport fulfilled with
    status 200 and, for the output ["json"], the body decodes; its value is
    then the decoded body, or for any other output the body itself as a
    string, which is not decoded. *)
Theorem methodCall_fulfils_iff (v : JsValue) :
  methodCall JSON_parse got this method args output = Fulfilled v <->
  exists response : Response,
    got (methodCall_url this method args output) = Returns (Fulfilled response) /\
    statusCode response = 200%Z /\
    ((output = "json" /\ JSON_parse (body response) = Returns v) \/
     (output <> "json" /\ v = JStr (body response))).
Proof.
  rewrite methodCall_cases. split.
  - destruct (got _) as [[| response | [message | w]] | e]; try discriminate.
    destruct (Z.eqb_spec (statusCode response) 200) as [Hs | Hs]; [| discriminate].
    destruct (String.eqb_spec output "json") as [Ho | Ho].
    + destruct (JSON_parse (body response)) as [w | [message | w]] eqn:Hp;
        try discriminate.
      intros [= ->]. exists response. auto.
    + intros [= <-]. exists response. auto.
  - intros (response & -> & Hs & [[Ho Hp] | [Ho ->]]).
    + rewrite Hs, Ho, Hp. reflexivity.
    + rewrite Hs. apply String.eqb_neq in Ho. now rewrite Ho.
Qed.

End MethodCallOutcomes.

(** ** [addFile] *)

(** X3 -- [addFile] interprets the answer to its upload the way
    [methodCall] interprets an answer for the output ["json"]: when the two
    transports end alike, the two promises end alike (decoded body on
    status 200, pending on another status, the transport message for a
    rejected transport and for an undecodable body). *)
Theorem addFile_settles_like_methodCall :
  forall (JSON_parse : string -> Outcome JsValue)
         (got : URL -> Outcome (Promise Response))
         (got_post : string -> FormData.t -> Outcome (Promise Response))
         (this : Client) (formData : FormData.t)
         (name password cat script : option string)
         (priority : option Priority.t) (postProcess : option PostProcessing.t)
         (method : string) (args : Args),
    got_post (mHost this ++ "/api")%string
      (addFile_formData this formData name password cat script priority postProcess)
    = got (methodCall_url this method args "json") ->
    addFile JSON_parse got_post this formData name password cat script priority
      postProcess
    = methodCall JSON_parse got this method args "json".
Proof.
  intros JSON_parse got got_post this formData name password cat script priority
    postProcess method args Hsame.
  rewrite methodCall_cases.
  unfold addFile, new_Promise, try_catch, bind, lift, then_, catch_.
  rewrite Hsame.
  destruct (got _) as [[| response | [message | v]] | e]; try reflexivity.
  destruct (statusCode response =? 200)%Z; [| reflexivity].
  simpl.
  destruct (JSON_parse (body response)) as [v | [message | v]]; reflexivity.
Qed.

Lemma addFile_settles_like_methodCall_witness :
  addFile Json.parse (fun _ _ => Returns (Fulfilled (mkResponse 200 "{}")))
    example_client [("nzbfile", FormData.Stream "/path/to/file")]
    None None None None None None
  = methodCall Json.parse (got_settles (Fulfilled (mkResponse 200 "{}")))
      example_client "addurl" (ArgsValue JUndefined) "json".
Proof.
  apply (addFile_settles_like_methodCall Json.parse
           (got_settles (Fulfilled (mkResponse 200 "{}")))
           (fun _ _ => Returns (Fulfilled (mkResponse 200 "{}")))
           example_client [("nzbfile", FormData.Stream "/path/to/file")]
           None None None None None None "addurl" (ArgsValue JUndefined)).
  reflexivity.
Defined.

Lemma job_options_no_control_field {V : Type} (g : string -> V) (k : string)
  (name password cat script : option string)
  (priority : option Priority.t) (postProcess : option PostProcessing.t) :
  In k ["mode"; "output"; "apikey"] ->
  length (filter (String.eqb k)
            (map fst (present g "nzbname" (of_string name)
                      ++ present g "password" (of_string password)
                      ++ present g "cat" (of_string cat)
                      ++ present g "script" (of_string script)
                      ++ present g "priority" (of_priority priority)
                      ++ present g "pp" (of_postProcess postProcess)))) = 0.
Proof.
  intros Hk. simpl in Hk.
  decompose [or] Hk; subst; try contradiction; decide_guards; reflexivity.
Qed.

(** X4 -- [addFile] appends to the form the caller passes in and leaves
    what is there in place: the form it uploads starts with the caller's
    fields, and each of [mode], [output] and [apikey] occurs in it once
    more than the caller put in, whatever the optional parameters are. *)
Theorem addFile_appends_control_fields_once :
  forall (this : Client) (formData : FormData.t)
         (name password cat script : option string)
         (priority : option Priority.t) (postProcess : option PostProcessing.t)
         (k : string),
    let form :=
      addFile_formData this formData name password cat script priority postProcess in
    In k ["mode"; "output"; "apikey"] ->
    FormData.occurrences k form = FormData.occurrences k formData + 1 /\
    exists appended, form = formData ++ appended.
Proof.
  intros this formData name password cat script priority postProcess k form Hk.
  subst form. unfold addFile_formData.
  rewrite (job_options_fields FormData.Text FormData.append) by reflexivity.
  split.
  - rewrite form_occurrences_app.
    replace (FormData.occurrences k
               (present FormData.Text "nzbname" (of_string name)
                ++ present FormData.Text "password" (of_string password)
                ++ present FormData.Text "cat" (of_string cat)
                ++ present FormData.Text "script" (of_string script)
                ++ present FormData.Text "priority" (of_priority priority)
                ++ present FormData.Text "pp" (of_postProcess postProcess)))
      with 0
      by (symmetry;
          apply (job_options_no_control_field FormData.Text k name password cat script
                   priority postProcess Hk)).
    unfold FormData.append. rewrite !form_occurrences_app.
    simpl in Hk. decompose [or] Hk; subst; try contradiction;
      unfold FormData.occurrences; simpl; lia.
  - unfold FormData.append. rewrite <- !app_assoc. now eexists.
Qed.

Lemma addFile_appends_control_fields_witness :
  let form :=
    addFile_formData example_client [("nzbfile", FormData.Stream "/path/to/file")]
      (Some "job") None None None (Some Priority.High) None in
  FormData.occurrences "apikey" form
    = FormData.occurrences "apikey" [("nzbfile", FormData.Stream "/path/to/file")] + 1 /\
  exists appended, form = [("nzbfile", FormData.Stream "/path/to/file")] ++ appended.
Proof.
  apply (addFile_appends_control_fields_once example_client
           [("nzbfile", FormData.Stream "/path/to/file")]
           (Some "job") None None None (Some Priority.High) None "apikey").
  simpl. tauto.
Defined.

(** ** What reaches the caller of an operation *)

Lemma perform_dispatches (JSON_parse : string -> Outcome JsValue)
  (got : URL -> Outcome (Promise Response)) (this : Client) (op : Operation) :
  perform JSON_parse got this op
  = results_call JSON_parse got this (fst (dispatched op)) (snd (dispatched op)).
Proof. destruct op; reflexivity. Qed.

(** X5 -- each of the twenty-eight operations that hand the decoded
    response on ([queuePause] ... [resetQuota]) fulfils exactly when its
    dispatch fulfils, with the same value, and never rejects: when the
    dispatch is rejected the promise of the operation is left pending. *)
Theorem operations_fulfil_or_stay_pending :
  forall (JSON_parse : string -> Outcome JsValue)
         (got : URL -> Outcome (Promise Response)) (this : Client) (op : Operation),
    let dispatch :=
      methodCall JSON_parse got this (fst (dispatched op)) (snd (dispatched op)) "json" in
    (forall v, perform JSON_parse got this op = Fulfilled v <-> dispatch = Fulfilled v) /\
    (forall e, perform JSON_parse got this op <> Rejected e) /\
    (forall e, dispatch = Rejected e -> perform JSON_parse got this op = Pending).
Proof.
  intros JSON_parse got this op dispatch.
  rewrite perform_dispatches, results_call_settles. fold dispatch.
  destruct dispatch as [| results | e0]; repeat split;
    try discriminate; try congruence.
Qed.

(** X6 -- [queue], the one operation written as an [async] method without
    a promise of its own, does pass a failure of the transport on: when the
    transport promise is rejected with an [Error], [queue] rejects with
    ["Error accessing SABnzbd host: "] followed by the cause. *)
Theorem queue_passes_transport_failure_on :
  forall (JSON_parse : string -> Outcome JsValue)
         (got : URL -> Outcome (Promise Response)) (this : Client)
         (start limit : option Z) (search : option string)
         (nzoIds : option (list string)) (cause : string),
    got (methodCall_url this "queue"
           (ArgsParams (queue_searchParams start limit search nzoIds)) "json")
      = Returns (Rejected (ErrorObj cause)) ->
    queue JSON_parse got this start limit search nzoIds
      = Rejected (ErrorObj ("Error accessing SABnzbd host: " ++ cause)).
Proof.
  intros JSON_parse got this start limit search nzoIds cause Hgot.
  rewrite queue_settles.
  now rewrite (methodCall_transport_rejects _ _ _ _ _ _ cause Hgot).
Qed.

Lemma queue_passes_transport_failure_witness :
  queue Json.parse (got_settles (Rejected (ErrorObj "connect ECONNREFUSED")))
    example_client None None None None
  = Rejected (ErrorObj "Error accessing SABnzbd host: connect ECONNREFUSED").
Proof.
  apply (queue_passes_transport_failure_on Json.parse
           (got_settles (Rejected (ErrorObj "connect ECONNREFUSED")))
           example_client None None None None "connect ECONNREFUSED").
  reflexivity.
Defined.

(** X7 -- a decoded response of [null] makes [queue] reject with the
    [TypeError] of the property read, where the operations with an async
    executor would stay pending; on any other decoded response [queue]
    fulfils with the [queue] property, [undefined] included. *)
Theorem queue_on_decoded_response :
  forall (JSON_parse : string -> Outcome JsValue)
         (got : URL -> Outcome (Promise Response)) (this : Client)
         (start limit : option Z) (search : option string)
         (nzoIds : option (list string)) (resultsObj : JsValue),
    methodCall JSON_parse got this "queue"
      (ArgsParams (queue_searchParams start limit search nzoIds)) "json"
      = Fulfilled resultsObj ->
    (nullish resultsObj = true ->
     exists message,
       queue JSON_parse got this start limit search nzoIds = Rejected (ErrorObj message)) /\
    (nullish resultsObj = false ->
     queue JSON_parse got this start limit search nzoIds
     = Fulfilled (prop resultsObj "queue")).
Proof.
  intros JSON_parse got this start limit search nzoIds resultsObj Hcall.
  rewrite queue_settles, Hcall. unfold get_prop.
  split; intros ->; [eexists |]; reflexivity.
Qed.

Lemma queue_on_decoded_response_witness :
  exists message,
    queue Json.parse (got_settles (Fulfilled (mkResponse 200 "null")))
      example_client None None None None = Rejected (ErrorObj message).
Proof.
  apply (queue_on_decoded_response Json.parse
           (got_settles (Fulfilled (mkResponse 200 "null")))
           example_client None None None None JNull);
    reflexivity.
Defined.

Lemma perform_checked_settles (JSON_parse : string -> Outcome JsValue)
  (got : URL -> Outcome (Promise Response)) (this : Client) (op : CheckedOp) :
  perform_checked JSON_parse got this op
  = checked_field (required_field op)
      (methodCall JSON_parse got this (checked_method op) (ArgsValue JUndefined) "json").
Proof.
  destruct op; simpl;
    [apply version_settles | apply auth_settles
     | apply getCats_settles | apply getScripts_settles].
Qed.

(** X8 -- [version], [auth], [getCats] and [getScripts] fulfil only with a
    truthy value of their field, read from a decoded response that is not
    [null]; they reject only with ["Invalid response from SABnzbd"], and do
    so exactly when the decoded response is not [null] and the field is
    missing or falsy (an empty version string, for one, while an empty list
    of categories is truthy and accepted). *)
Theorem checked_operations_outcomes :
  forall (JSON_parse : string -> Outcome JsValue)
         (got : URL -> Outcome (Promise Response)) (this : Client) (op : CheckedOp),
    let dispatch :=
      methodCall JSON_parse got this (checked_method op) (ArgsValue JUndefined) "json" in
    (forall v,
        perform_checked JSON_parse got this op = Fulfilled v <->
        exists results,
          dispatch = Fulfilled results /\ nullish results = false /\
          v = prop results (required_field op) /\ truthy v = true) /\
    (forall e,
        perform_checked JSON_parse got this op = Rejected e <->
        e = ErrorObj "Invalid response from SABnzbd" /\
        exists results,
          dispatch = Fulfilled results /\ nullish results = false /\
          truthy (prop results (required_field op)) = false).
Proof.
  intros JSON_parse got this op dispatch.
  rewrite perform_checked_settles. fold dispatch.
  unfold checked_field. split.
  - intros v. split.
    + destruct dispatch as [| results |]; try discriminate.
      destruct (nullish results) eqn:Hn; [discriminate |].
      destruct (truthy (prop results (required_field op))) eqn:Ht; [| discriminate].
      intros [= <-]. now exists results.
    + intros (results & -> & Hn & -> & Ht). now rewrite Hn, Ht.
  - intros e. split.
    + destruct dispatch as [| results |]; try discriminate.
      destruct (nullish results) eqn:Hn; [discriminate |].
      destruct (truthy (prop results (required_field op))) eqn:Ht; [discriminate |].
      intros [= <-]. split; [reflexivity |]. now exists results.
    + intros (-> & results & -> & Hn & Ht). now rewrite Hn, Ht.
Qed.

(** X9 -- [translateText] rejects exactly when the decoded response is not
    [null] and has no truthy [value]; the message is
    ["Error in API call"], followed by [": "] and the string form of the
    [error] field when that field is truthy. *)
Theorem translateText_rejects_iff :
  forall (JSON_parse : string -> Outcome JsValue)
         (got : URL -> Outcome (Promise Response)) (this : Client) (text : string)
         (e : Thrown),
    translateText JSON_parse got this text = Rejected e <->
    exists results,
      methodCall JSON_parse got this "translate"
        (ArgsValue (JObj [("value", JStr text)])) "json" = Fulfilled results /\
      nullish results = false /\
      truthy (prop results "value") = false /\
      e = ErrorObj ("Error in API call"
                    ++ (if truthy (prop results "error")
                        then ": " ++ to_string (prop results "error")
                        else EmptyString)).
Proof.
  intros JSON_parse got this text e.
  rewrite translateText_settles. split.
  - destruct (methodCall _ _ _ _ _ _) as [| results |]; try discriminate.
    destruct (nullish results) eqn:Hn; [discriminate |].
    destruct (truthy (prop results "value")) eqn:Hv; [discriminate |].
    intros [= <-]. now exists results.
  - intros (results & -> & Hn & Hv & ->). now rewrite Hn, Hv.
Qed.

(** ** The requests of the catalogue *)

Lemma distinct_NoDup (l : list string) : distinct l = true -> NoDup l.
Proof.
  induction l as [| x l IH]; simpl; intros H; constructor.
  - apply andb_true_iff in H. destruct H as [H _].
    apply negb_true_iff in H. intros Hin.
    apply existsb_eqb_In in Hin. congruence.
  - apply IH. apply andb_true_iff in H. tauto.
Qed.

Lemma assoc_app_notin {A : Type} (k : string) (l1 l2 : list (string * A)) :
  ~ In k (map fst l1) -> assoc k (l1 ++ l2) = assoc k l2.
Proof.
  induction l1 as [| [k' v'] l1 IH]; simpl; intros Hnotin; [reflexivity |].
  destruct (String.eqb_spec k' k) as [-> | _]; [tauto |].
  apply IH. tauto.
Qed.

Lemma NoDup_app_disjoint {A : Type} (l1 l2 : list A) (a : A) :
  NoDup (l1 ++ l2) -> In a l1 -> In a l2 -> False.
Proof.
  induction l1 as [| x l1 IH]; simpl; intros Hnd Hin1 Hin2; [contradiction |].
  inversion Hnd as [| ? ? Hnotin Hnd']; subst.
  destruct Hin1 as [-> | Hin1].
  - apply Hnotin, in_or_app. now right.
  - now apply IH.
Qed.

Lemma methodCall_url_supplied (this : Client) (method : string) (args : Args)
  (output : string) :
  NoDup (URLSearchParams.keys (supplied args)) ->
  methodCall_url this method args output
  = mkURL (mHost this ++ "/api") (supplied args ++ control_fields this method output).
Proof.
  intros Hnd. destruct args as [p | v]; simpl in *.
  - now apply methodCall_url_distinct_names.
  - apply methodCall_url_value.
Qed.

Ltac names_distinct :=
  unfold URLSearchParams.keys; rewrite ?map_app; simpl map;
  decide_guards; apply distinct_NoDup; reflexivity.

Lemma fixed_names_distinct (op : Operation) :
  fixed_names op = true ->
  NoDup (URLSearchParams.keys (supplied (snd (dispatched op)))
         ++ ["mode"; "output"; "apikey"]).
Proof.
  intros Hfixed.
  destruct op; try discriminate; cbn [dispatched snd supplied];
    try (apply distinct_NoDup; reflexivity).
  - unfold queuePurge_searchParams.
    rewrite (if_truthy_append _ (@Datatypes.id string) URLSearchParams.append)
      by reflexivity.
    fold (of_string search). names_distinct.
  - unfold addUrl_searchParams.
    rewrite (job_options_fields (@Datatypes.id string) URLSearchParams.append)
      by reflexivity.
    names_distinct.
  - unfold addPath_searchParams.
    rewrite (job_options_fields (@Datatypes.id string) URLSearchParams.append)
      by reflexivity.
    names_distinct.
  - destruct id as [s | l]; apply distinct_NoDup; reflexivity.
  - unfold jobChangeName_searchParams.
    rewrite (if_truthy_append _ (@Datatypes.id string) URLSearchParams.append)
      by reflexivity.
    fold (of_string password). names_distinct.
  - unfold getConfig_options, if_truthy.
    destruct section as [section |], keyword as [keyword |];
      change (truthy (JObj ?f)) with true; cbv iota;
      repeat match goal with
             | |- context [truthy (JStr ?s)] => destruct (truthy (JStr s))
             end;
      apply distinct_NoDup; reflexivity.
  - destruct keyword as [s | l]; [apply distinct_NoDup; reflexivity |].
    simpl in Hfixed. destruct l as [| x [| y l]]; try discriminate;
      apply distinct_NoDup; reflexivity.
Qed.

Lemma fixed_operations_send_arguments_as_supplied_aux (this : Client) (op : Operation) :
  fixed_names op = true ->
  searchParams (request_of this op)
  = supplied (snd (dispatched op)) ++ control_fields this (fst (dispatched op)) "json" /\
  NoDup (URLSearchParams.keys (supplied (snd (dispatched op)))).
Proof.
  intros Hfixed.
  pose proof (fixed_names_distinct op Hfixed) as Hnd.
  assert (Hargs : NoDup (URLSearchParams.keys (supplied (snd (dispatched op))))).
  { eapply NoDup_app_remove_r. exact Hnd. }
  unfold request_of. rewrite (methodCall_url_supplied this _ _ _ Hargs).
  now split.
Qed.

(** X10 -- for every operation of the catalogue whose field names the
    client fixes (all but [setConfig] and [setConfigDefault] with more than
    one keyword), the request goes to [<host>/api], its query is the
    arguments of the operation as supplied followed by [mode], [output],
    [apikey], and no field name occurs twice; in particular the [mode] the
    server reads is the method of the operation. *)
Theorem fixed_operations_send_arguments_as_supplied :
  forall (this : Client) (op : Operation),
    fixed_names op = true ->
    let query := searchParams (request_of this op) in
    href (request_of this op) = (mHost this ++ "/api")%string /\
    query = supplied (snd (dispatched op))
            ++ control_fields this (fst (dispatched op)) "json" /\
    NoDup (URLSearchParams.keys query) /\
    URLSearchParams.get "mode" query = Some (fst (dispatched op)).
Proof.
  intros this op Hfixed query.
  pose proof (fixed_names_distinct op Hfixed) as Hnd.
  assert (Hargs : NoDup (URLSearchParams.keys (supplied (snd (dispatched op))))).
  { eapply NoDup_app_remove_r. exact Hnd. }
  subst query. unfold request_of.
  rewrite (methodCall_url_supplied this _ _ _ Hargs). simpl href. simpl searchParams.
  split; [reflexivity |]. split; [reflexivity |]. split.
  - unfold URLSearchParams.keys. rewrite map_app. exact Hnd.
  - unfold URLSearchParams.get. rewrite assoc_app_notin; [reflexivity |].
    intros Hin. apply (NoDup_app_disjoint _ _ "mode" Hnd Hin). simpl. tauto.
Qed.

Lemma fixed_operations_witness :
  let op := OpChangePriority "SABnzbd_nzo_ksfai6" Priority.High in
  let query := searchParams (request_of example_client op) in
  href (request_of example_client op) = "http://example.com/sabnzbd/api" /\
  query = [("name", "1"); ("value", "SABnzbd_nzo_ksfai6"); ("value2", "1")]
          ++ control_fields example_client "queue" "json" /\
  NoDup (URLSearchParams.keys query) /\
  URLSearchParams.get "mode" query = Some "queue".
Proof.
  apply (fixed_operations_send_arguments_as_supplied example_client
           (OpChangePriority "SABnzbd_nzo_ksfai6" Priority.High)).
  reflexivity.
Defined.

Lemma assoc_In_distinct {A : Type} (k : string) (v : A) (l : list (string * A)) :
  NoDup (map fst l) -> In (k, v) l -> assoc k l = Some v.
Proof.
  induction l as [| [k' v'] l IH]; simpl; intros Hnd Hin; [contradiction |].
  inversion Hnd as [| ? ? Hnotin Hnd']; subst.
  destruct Hin as [[= -> ->] | Hin].
  - now rewrite String.eqb_refl.
  - destruct (String.eqb_spec k' k) as [-> | _]; [| now apply IH].
    exfalso. apply Hnotin. change k with (fst (k, v)). now apply in_map.
Qed.

Lemma filter_eqb_notin (k : string) (l : list string) :
  ~ In k l -> filter (String.eqb k) l = [].
Proof.
  induction l as [| x l IH]; intros Hnotin; [reflexivity |].
  cbn [filter]. destruct (String.eqb_spec k x) as [-> | _].
  - exfalso. apply Hnotin. now left.
  - apply IH. intros H. apply Hnotin. now right.
Qed.

Lemma once_in_distinct (k : string) (l : list string) :
  NoDup l -> In k l -> length (filter (String.eqb k) l) = 1.
Proof.
  induction l as [| x l IH]; intros Hnd Hin; [contradiction |].
  inversion Hnd as [| ? ? Hnotin Hnd']; subst.
  cbn [filter]. destruct (String.eqb_spec k x) as [-> | Hne].
  - now rewrite filter_eqb_notin.
  - apply IH; [assumption |]. destruct Hin as [-> | Hin]; [congruence | assumption].
Qed.

(** X11 -- [setConfig] passes the object of the caller on as it is: every
    property becomes a field with the string form of its value, in order,
    before the control fields.  A property whose value is [undefined] is
    sent as the text ["undefined"], and a property named [mode] comes
    before the [mode] of the client, so the request has two [mode] fields
    and the first is the caller's. *)
Theorem setConfig_passes_object_on :
  forall (this : Client) (fields : list (string * JsValue)),
    NoDup (map fst fields) ->
    let query := searchParams (request_of this (OpSetConfig (JObj fields))) in
    query = map (fun kv => (fst kv, to_string (snd kv))) fields
            ++ control_fields this "set_config" "json" /\
    (forall k, In (k, JUndefined) fields -> In (k, "undefined") query) /\
    (forall v, In ("mode", v) fields ->
               URLSearchParams.get "mode" query = Some (to_string v) /\
               URLSearchParams.occurrences "mode" query = 2).
Proof.
  intros this fields Hnd query.
  assert (Hq : query = map (fun kv => (fst kv, to_string (snd kv))) fields
                       ++ control_fields this "set_config" "json").
  { subst query. unfold request_of. cbn [dispatched fst snd].
    now rewrite methodCall_url_object. }
  split; [exact Hq |]. rewrite Hq. split.
  - intros k Hin. apply in_or_app. left.
    change (k, "undefined") with
      ((fun kv : string * JsValue => (fst kv, to_string (snd kv))) (k, JUndefined)).
    now apply in_map.
  - intros v Hin.
    assert (Hkeys : map fst (map (fun kv : string * JsValue =>
                                    (fst kv, to_string (snd kv))) fields)
                    = map fst fields).
    { rewrite map_map. reflexivity. }
    assert (Hin' : In ("mode", to_string v)
                     (map (fun kv : string * JsValue => (fst kv, to_string (snd kv)))
                        fields)).
    { change ("mode", to_string v) with
        ((fun kv : string * JsValue => (fst kv, to_string (snd kv))) ("mode", v)).
      now apply in_map. }
    split.
    + unfold URLSearchParams.get.
      assert (Hfound : assoc "mode"
                         (map (fun kv : string * JsValue =>
                                 (fst kv, to_string (snd kv))) fields)
                       = Some (to_string v)).
      { apply assoc_In_distinct; [now rewrite Hkeys | exact Hin']. }
      revert Hfound. generalize (map (fun kv : string * JsValue =>
                                        (fst kv, to_string (snd kv))) fields).
      intros l. induction l as [| [k' v'] l IH]; simpl; [discriminate |].
      destruct (k' =? "mode"); [trivial | exact IH].
    + rewrite occurrences_app.
      unfold URLSearchParams.occurrences at 1. unfold URLSearchParams.keys.
      rewrite Hkeys.
      rewrite (once_in_distinct "mode" (map fst fields) Hnd).
      * reflexivity.
      * change "mode" with (fst ("mode", v)). now apply in_map.
Qed.

Lemma setConfig_passes_object_on_witness :
  let fields := [("section", JStr "misc"); ("keyword", JStr "quota_size");
                 ("value", JUndefined); ("mode", JStr "shutdown")] in
  let query := searchParams (request_of example_client (OpSetConfig (JObj fields))) in
  query = map (fun kv => (fst kv, to_string (snd kv))) fields
          ++ control_fields example_client "set_config" "json" /\
  (forall k, In (k, JUndefined) fields -> In (k, "undefined") query) /\
  (forall v, In ("mode", v) fields ->
             URLSearchParams.get "mode" query = Some (to_string v) /\
             URLSearchParams.occurrences "mode" query = 2).
Proof.
  apply (setConfig_passes_object_on example_client
           [("section", JStr "misc"); ("keyword", JStr "quota_size");
            ("value", JUndefined); ("mode", JStr "shutdown")]).
  apply distinct_NoDup. reflexivity.
Defined.

(** X12 -- for [jobDelete] and [setConfigDefault] a list of one element
    sends the request the bare string sends; the empty list makes
    [jobDelete] send an empty [value] and [setConfigDefault] send no
    [keyword] at all. *)
Theorem one_element_lists_like_strings :
  forall (this : Client) (s : string),
    request_of this (OpJobDelete (ManyStrings [s]))
      = request_of this (OpJobDelete (OneString s)) /\
    request_of this (OpSetConfigDefault (ManyStrings [s]))
      = request_of this (OpSetConfigDefault (OneString s)) /\
    searchParams (request_of this (OpJobDelete (ManyStrings [])))
      = [("name", "delete"); ("value", EmptyString)]
        ++ control_fields this "queue" "json" /\
    searchParams (request_of this (OpSetConfigDefault (ManyStrings [])))
      = control_fields this "set_config_default" "json".
Proof. intros this s. repeat split. Qed.

(** ** [warnings] *)

Lemma keeps_settled_ret {R A : Type} (a : A) : keeps_settled (@ret R A a).
Proof. now intros st _. Qed.

Lemma keeps_settled_lift {R A : Type} (o : Outcome A) : keeps_settled (@lift R A o).
Proof. intros st _. now destruct o. Qed.

Lemma keeps_settled_resolve {R : Type} (v : R) : keeps_settled (resolve v).
Proof. intros st Hst. destruct st; [congruence | reflexivity | reflexivity]. Qed.

Lemma keeps_settled_reject {R : Type} (e : Thrown) : keeps_settled (@reject R e).
Proof. intros st Hst. destruct st; [congruence | reflexivity | reflexivity]. Qed.

Lemma keeps_settled_bind {R A B : Type} (m : Exec R A) (k : A -> Exec R B) :
  keeps_settled m -> (forall a, keeps_settled (k a)) -> keeps_settled (bind m k).
Proof.
  intros Hm Hk st Hst. unfold bind. specialize (Hm st Hst).
  destruct (m st) as [st' [a | e |]]; simpl in *; subst; try reflexivity.
  now apply Hk.
Qed.

Lemma keeps_settled_for_each {R A S : Type} (l : list A) (body : S -> A -> Exec R S)
  (s : S) :
  (forall s x, keeps_settled (body s x)) -> keeps_settled (for_each l body s).
Proof.
  intros Hbody. revert s. induction l as [| x l IH]; intros s; simpl.
  - apply keeps_settled_ret.
  - apply keeps_settled_bind; [apply Hbody | apply IH].
Qed.

Lemma keeps_settled_warnings_entry (acc : list ErrorWarning) (result : JsValue) :
  keeps_settled (warnings_entry acc result).
Proof.
  unfold warnings_entry.
  repeat first
    [ apply keeps_settled_ret
    | apply keeps_settled_lift
    | apply keeps_settled_bind; [| intros]
    | match goal with
      | |- keeps_settled (if ?c then _ else _) => destruct c
      end
    | apply keeps_settled_reject ].
Qed.

Lemma warnings_entry_nullish (acc : list ErrorWarning) (result : JsValue)
  (st : Promise (list ErrorWarning)) :
  nullish result = true ->
  exists e, warnings_entry acc result st = (st, Throw e).
Proof.
  intros Hn. unfold warnings_entry, bind, lift, get_prop. rewrite Hn.
  now eexists.
Qed.

Lemma warnings_entry_valid (acc : list ErrorWarning) (result : JsValue)
  (st : Promise (list ErrorWarning)) :
  valid_warning result = true ->
  warnings_entry acc result st = (st, Normal (acc ++ [to_warning result])).
Proof.
  unfold valid_warning. intros Hv.
  repeat (apply andb_true_iff in Hv; destruct Hv as [Hv ?]).
  apply negb_true_iff in Hv.
  unfold warnings_entry, bind, lift, get_prop. rewrite Hv.
  now replace (negb (truthy (prop result "text"))
               || negb (strict_equal_string (prop result "type") "WARNING")
               || negb (truthy (prop result "time"))) with false
    by (symmetry; rewrite !orb_false_iff, !negb_false_iff; tauto).
Qed.

Lemma warnings_entry_invalid (acc : list ErrorWarning) (result : JsValue) :
  nullish result = false ->
  valid_warning result = false ->
  warnings_entry acc result Pending
  = (Rejected (ErrorObj "Invalid response from SABnzbd"),
     Normal (acc ++ [to_warning result])).
Proof.
  unfold valid_warning. intros Hn Hv. rewrite Hn in Hv. simpl in Hv.
  unfold warnings_entry, bind, lift, get_prop. rewrite Hn.
  replace (negb (truthy (prop result "text"))
           || negb (strict_equal_string (prop result "type") "WARNING")
           || negb (truthy (prop result "time"))) with true; [reflexivity |].
  symmetry.
  destruct (truthy (prop result "text")),
    (strict_equal_string (prop result "type") "WARNING"),
    (truthy (prop result "time")); try reflexivity; discriminate.
Qed.

(** The loop followed by [resolve(warnings)], started on a pending
    promise. *)
Lemma warnings_loop_outcome (elems : list JsValue) (acc : list ErrorWarning) :
  fst (bind (for_each elems warnings_entry acc) resolve Pending)
  = match first_invalid elems with
    | None => Fulfilled (acc ++ map to_warning elems)
    | Some bad =>
        if nullish bad then Pending
        else Rejected (ErrorObj "Invalid response from SABnzbd")
    end.
Proof.
  revert acc. induction elems as [| x elems IH]; intros acc.
  - simpl. now rewrite app_nil_r.
  - unfold first_invalid. cbn [find map].
    destruct (valid_warning x) eqn:Hv; cbn [negb].
    + specialize (IH (acc ++ [to_warning x])).
      rewrite <- app_assoc in IH. simpl in IH.
      fold (first_invalid elems). rewrite <- IH.
      cbn [for_each]. unfold bind at 1 2.
      rewrite warnings_entry_valid by assumption. reflexivity.
    + destruct (nullish x) eqn:Hn.
      * destruct (warnings_entry_nullish acc x Pending Hn) as [e He].
        cbn [for_each]. unfold bind. now rewrite He.
      * cbn [for_each]. unfold bind at 1 2.
        rewrite warnings_entry_invalid by assumption.
        apply (keeps_settled_bind (for_each elems warnings_entry _) resolve).
        -- apply keeps_settled_for_each. intros. apply keeps_settled_warnings_entry.
        -- intros. apply keeps_settled_resolve.
        -- discriminate.
Qed.

Section WarningsOutcomes.

Variable JSON_parse : string -> Outcome JsValue.
Variable got : URL -> Outcome (Promise Response).
Variable this : Client.

Let dispatch := methodCall JSON_parse got this "warnings" (ArgsValue JUndefined) "json".

Lemma warnings_settles :
  warnings JSON_parse got this =
  match dispatch with
  | Fulfilled results =>
      match iterate results with
      | Returns elems =>
          match first_invalid elems with
          | None => Fulfilled (map to_warning elems)
          | Some bad =>
              if nullish bad then Pending
              else Rejected (ErrorObj "Invalid response from SABnzbd")
          end
      | Throws _ => Pending
      end
  | _ => Pending
  end.
Proof.
  unfold warnings, new_Promise_async. fold dispatch.
  destruct dispatch as [| results |]; try reflexivity.
  unfold bind at 1. unfold await.
  destruct (iterate results) as [elems | e]; [| reflexivity].
  unfold bind at 1. unfold lift.
  apply (warnings_loop_outcome elems []).
Qed.

Lemma first_invalid_none (elems : list JsValue) :
  first_invalid elems = None <-> forallb valid_warning elems = true.
Proof.
  unfold first_invalid. induction elems as [| x elems IH]; simpl; [tauto |].
  destruct (valid_warning x); simpl; [exact IH |].
  split; discriminate.
Qed.

(** X13 -- [warnings] fulfils exactly when the decoded response is an
    array (or a string) all of whose entries have a truthy [text], the
    [type] ["WARNING"] and a truthy [time]; its value has one record per
    entry, in order, with the [text] and [time] of the entry.  An empty
    array gives the empty list. *)
Theorem warnings_fulfils_iff (ws : list ErrorWarning) :
  warnings JSON_parse got this = Fulfilled ws <->
  exists results elems,
    dispatch = Fulfilled results /\
    iterate results = Returns elems /\
    forallb valid_warning elems = true /\
    ws = map to_warning elems.
Proof.
  rewrite warnings_settles. split.
  - destruct dispatch as [| results |]; try discriminate.
    destruct (iterate results) as [elems | e] eqn:Hiter; [| discriminate].
    destruct (first_invalid elems) as [bad |] eqn:Hfirst.
    + destruct (nullish bad); discriminate.
    + intros [= <-]. exists results, elems.
      apply first_invalid_none in Hfirst. auto.
  - intros (results & elems & -> & -> & Hvalid & ->).
    apply first_invalid_none in Hvalid. now rewrite Hvalid.
Qed.

(** X14 -- [warnings] rejects exactly when the first entry the loop does
    not accept is an object it can read (not [null]); the message is
    ["Invalid response from SABnzbd"].  The loop goes on after [reject],
    which no later entry can undo. *)
Theorem warnings_rejects_iff (e : Thrown) :
  warnings JSON_parse got this = Rejected e <->
  e = ErrorObj "Invalid response from SABnzbd" /\
  exists results elems bad,
    dispatch = Fulfilled results /\
    iterate results = Returns elems /\
    first_invalid elems = Some bad /\
    nullish bad = false.
Proof.
  rewrite warnings_settles. split.
  - destruct dispatch as [| results |]; try discriminate.
    destruct (iterate results) as [elems | e0] eqn:Hiter; [| discriminate].
    destruct (first_invalid elems) as [bad |] eqn:Hfirst; [| discriminate].
    destruct (nullish bad) eqn:Hn; [discriminate |].
    intros [= <-]. split; [reflexivity |]. now exists results, elems, bad.
  - intros (-> & results & elems & bad & -> & -> & -> & ->). reflexivity.
Qed.

(** X15 -- when the decoded response is an object, as in
    [{"warnings": [...]}], the loop [for( let result of results )] throws
    inside the async executor and [warnings] never settles. *)
Theorem warnings_on_object_never_settles (fields : list (string * JsValue)) :
  dispatch = Fulfilled (JObj fields) ->
  warnings JSON_parse got this = Pending.
Proof.
  intros Hcall. rewrite warnings_settles, Hcall. reflexivity.
Qed.

End WarningsOutcomes.

Lemma warnings_on_object_witness :
  warnings Json.parse
    (got_settles (Fulfilled (mkResponse 200
       (JsonText.stringify
          (JObj [("warnings",
                  JArr [JObj [("text", JStr "Disk full"); ("type", JStr "WARNING");
                              ("time", JNum 1620000000)]])])))))
    example_client = Pending.
Proof.
  apply (warnings_on_object_never_settles Json.parse _ example_client
           [("warnings",
             JArr [JObj [("text", JStr "Disk full"); ("type", JStr "WARNING");
                         ("time", JNum 1620000000)]])]).
  vm_compute. reflexivity.
Defined.

(** ** More on [serverStats] *)

Lemma never_rejects_silent {R A : Type} (m : Exec R A) : silent m -> never_rejects m.
Proof. intros Hm st Hst e. rewrite Hm. apply Hst. Qed.

Lemma never_rejects_resolve {R : Type} (v : R) : never_rejects (resolve v).
Proof. intros st Hst e. destruct st; simpl; try discriminate. apply Hst. Qed.

Lemma never_rejects_bind {R A B : Type} (m : Exec R A) (k : A -> Exec R B) :
  never_rejects m -> (forall a, never_rejects (k a)) -> never_rejects (bind m k).
Proof.
  intros Hm Hk st Hst e. unfold bind. specialize (Hm st Hst).
  destruct (m st) as [st' [a | e' |]]; simpl in *; try apply Hm.
  now apply Hk.
Qed.

Lemma silent_await {R A : Type} (p : Promise A) : silent (@await R A p).
Proof. intros st. now destruct p. Qed.

Section ServerStatsMore.

Variable JSON_parse : string -> Outcome JsValue.
Variable got : URL -> Outcome (Promise Response).
Variable this : Client.

Let dispatch :=
  methodCall JSON_parse got this "server_stats" (ArgsValue JUndefined) "json".

(** X17 -- [serverStats] never rejects.  It stays pending whenever the
    dispatch does not fulfil and whenever a property would have to be read
    from [null] or [undefined] (a server entry that is [null], or dates
    under [articles_success] with no [articles_tried] object): the
    [TypeError] is lost in the async executor. *)
Theorem serverStats_never_rejects :
  (forall e, serverStats JSON_parse got this <> Rejected e) /\
  (serverStats JSON_parse got this = Pending <->
   forall results, dispatch = Fulfilled results -> stats_wellformed results = false).
Proof.
  assert (Hnever : forall e, serverStats JSON_parse got this <> Rejected e).
  { unfold serverStats, new_Promise_async.
    apply never_rejects_bind; [| | discriminate].
    - apply never_rejects_silent, silent_await.
    - intros results.
      repeat (apply never_rejects_bind;
              [apply never_rejects_silent, silent_lift | intros]).
      apply never_rejects_bind.
      + apply never_rejects_silent, silent_for_each.
        intros. apply silent_serverStats_server.
      + intros. apply never_rejects_resolve. }
  split; [exact Hnever |]. split.
  - intros Hpending results Hcall.
    destruct (stats_wellformed results) eqn:Hwf; [| reflexivity].
    rewrite (serverStats_fulfils _ _ _ results Hcall Hwf) in Hpending. discriminate.
  - intros Hnone.
    destruct (serverStats JSON_parse got this) as [| stats | e] eqn:Hrun.
    + reflexivity.
    + apply serverStats_result in Hrun.
      destruct Hrun as (results & Hcall & Hwf & _).
      rewrite (Hnone results Hcall) in Hwf. discriminate.
    + exfalso. exact (Hnever e eq_refl).
Qed.

(** X18 -- on a readable decoded response the lookups of [daily] and
    [articles_tried] return, at every date key of their source object, the
    value the source has there, and nothing at any other date; the scalar
    tallies of the response and of every server are copied as they are;
    a server that is not in the response is not in [servers]. *)
Theorem statistics_lookups_return_source_values (results : JsValue) :
  dispatch = Fulfilled results ->
  stats_wellformed results = true ->
  exists stats : Stats,
    serverStats JSON_parse got this = Fulfilled stats /\
    (day stats, week stats, month stats, total stats)
    = (prop results "day", prop results "week", prop results "month",
       prop results "total") /\
    forall serverName : string,
      let serverResult := prop (prop results "servers") serverName in
      (In serverName (for_in_keys (prop results "servers")) ->
       exists server,
         JsMap.get serverName (servers stats) = Some server /\
         (ss_day server, ss_week server, ss_month server, ss_total server)
         = (prop serverResult "day", prop serverResult "week",
            prop serverResult "month", prop serverResult "total") /\
         forall date,
           JsMap.get date (daily server)
           = (if existsb (String.eqb date) (for_in_keys (prop serverResult "daily"))
              then Some (prop (prop serverResult "daily") date) else None) /\
           JsMap.get date (articles_tried server)
           = (if existsb (String.eqb date)
                   (for_in_keys (prop serverResult "articles_tried"))
              then Some (prop (prop serverResult "articles_tried") date) else None)) /\
      (~ In serverName (for_in_keys (prop results "servers")) ->
       JsMap.get serverName (servers stats) = None).
Proof.
  intros Hcall Hwf. exists (projected_stats results).
  split; [now apply serverStats_fulfils |].
  split; [reflexivity |].
  intros serverName serverResult. split.
  - intros Hin. exists (projected_server serverResult). split; [| split].
    + unfold projected_stats. simpl servers. rewrite get_build.
      apply existsb_eqb_In in Hin. now rewrite Hin.
    + reflexivity.
    + intros date. unfold projected_server. cbn [daily articles_tried].
      now rewrite !get_build.
  - intros Hnotin. unfold projected_stats. simpl servers. rewrite get_build.
    destruct (existsb (String.eqb serverName) (for_in_keys (prop results "servers")))
      eqn:Hex; [| reflexivity].
    apply existsb_eqb_In in Hex. contradiction.
Qed.

(** X20 -- a decoded response without servers (no [servers] field, or an
    empty one) is not an error for [serverStats]: it fulfils with an empty
    [servers] map and with whatever the four tallies read, [undefined] for
    a field that is missing. *)
Theorem serverStats_without_servers (results : JsValue) :
  dispatch = Fulfilled results ->
  nullish results = false ->
  for_in_keys (prop results "servers") = [] ->
  serverStats JSON_parse got this
  = Fulfilled (mkStats (prop results "day") (prop results "week")
                 (prop results "month") (prop results "total") JsMap.empty).
Proof.
  intros Hcall Hn Hnone.
  rewrite (serverStats_fulfils _ _ _ results Hcall).
  - unfold projected_stats. now rewrite Hnone.
  - unfold stats_wellformed. now rewrite Hn, Hnone.
Qed.

End ServerStatsMore.

Lemma statistics_lookups_values_witness :
  exists stats : Stats,
    serverStats Json.parse
      (got_settles (Fulfilled (mkResponse 200 (JsonText.stringify stats_response))))
      example_client = Fulfilled stats /\
    (day stats, week stats, month stats, total stats)
    = (prop stats_response "day", prop stats_response "week",
       prop stats_response "month", prop stats_response "total") /\
    forall serverName : string,
      let serverResult := prop (prop stats_response "servers") serverName in
      (In serverName (for_in_keys (prop stats_response "servers")) ->
       exists server,
         JsMap.get serverName (servers stats) = Some server /\
         (ss_day server, ss_week server, ss_month server, ss_total server)
         = (prop serverResult "day", prop serverResult "week",
            prop serverResult "month", prop serverResult "total") /\
         forall date,
           JsMap.get date (daily server)
           = (if existsb (String.eqb date) (for_in_keys (prop serverResult "daily"))
              then Some (prop (prop serverResult "daily") date) else None) /\
           JsMap.get date (articles_tried server)
           = (if existsb (String.eqb date)
                   (for_in_keys (prop serverResult "articles_tried"))
              then Some (prop (prop serverResult "articles_tried") date) else None)) /\
      (~ In serverName (for_in_keys (prop stats_response "servers")) ->
       JsMap.get serverName (servers stats) = None).
Proof.
  apply (statistics_lookups_return_source_values Json.parse
           (got_settles (Fulfilled (mkResponse 200 (JsonText.stringify stats_response))))
           example_client stats_response).
  - vm_compute. reflexivity.
  - vm_compute. reflexivity.
Defined.

Lemma serverStats_without_servers_witness :
  serverStats Json.parse (got_settles (Fulfilled (mkResponse 200 "{}"))) example_client
  = Fulfilled (mkStats JUndefined JUndefined JUndefined JUndefined JsMap.empty).
Proof.
  apply (serverStats_without_servers Json.parse
           (got_settles (Fulfilled (mkResponse 200 "{}"))) example_client (JObj []));
    reflexivity.
Defined.

(** X16 -- [serverStats] fulfils exactly when the dispatch fulfilled with a
    decoded response on which no property is read from [null] or
    [undefined]; its value is then the projection of that response. *)
Theorem serverStats_fulfils_iff :
  forall (JSON_parse : string -> Outcome JsValue)
         (got : URL -> Outcome (Promise Response)) (this : Client) (stats : Stats),
    serverStats JSON_parse got this = Fulfilled stats <->
    exists results : JsValue,
      methodCall JSON_parse got this "server_stats" (ArgsValue JUndefined) "json"
        = Fulfilled results /\
      stats_wellformed results = true /\
      stats = projected_stats results.
Proof. intros. apply serverStats_result. Qed.

(** ** The requests of the job operations and of [queue] *)

(** X21 -- [addUrl], [addPath] and [addFile] encode the options of a job
    alike: the same fields ([nzbname], [password], [cat], [script],
    [priority], [pp], each present when its value is truthy) in the same
    order, after [name] and before the control fields in the two queries,
    after the control fields in the form. *)
Theorem job_operations_share_option_fields :
  forall (this : Client) (url filePath : string) (formData : FormData.t)
         (name password cat script : option string)
         (priority : option Priority.t) (postProcess : option PostProcessing.t),
    let options (V : Type) (g : string -> V) : list (string * V) :=
      present g "nzbname" (of_string name) ++ present g "password" (of_string password)
      ++ present g "cat" (of_string cat) ++ present g "script" (of_string script)
      ++ present g "priority" (of_priority priority)
      ++ present g "pp" (of_postProcess postProcess) in
    searchParams
      (request_of this (OpAddUrl url name password cat script priority postProcess))
    = ("name", url) :: options string (fun s => s)
                       ++ control_fields this "addurl" "json" /\
    searchParams
      (request_of this (OpAddPath filePath name password cat script priority postProcess))
    = ("name", filePath) :: options string (fun s => s)
                            ++ control_fields this "addlocalfile" "json" /\
    addFile_formData this formData name password cat script priority postProcess
    = formData
      ++ [("mode", FormData.Text "addfile"); ("output", FormData.Text "json");
          ("apikey", FormData.Text (mApiKey this))]
      ++ options FormData.field FormData.Text /\
    options FormData.field FormData.Text
    = map (fun kv => (fst kv, FormData.Text (snd kv))) (options string (fun s => s)).
Proof.
  intros this url filePath formData name password cat script priority postProcess options.
  split; [| split; [| split]].
  - destruct (fixed_operations_send_arguments_as_supplied_aux this
                (OpAddUrl url name password cat script priority postProcess) eq_refl)
      as [-> _].
    cbn [dispatched fst snd supplied]. unfold addUrl_searchParams.
    now rewrite (job_options_fields (fun s : string => s) URLSearchParams.append)
      by reflexivity.
  - destruct (fixed_operations_send_arguments_as_supplied_aux this
                (OpAddPath filePath name password cat script priority postProcess)
                eq_refl) as [-> _].
    cbn [dispatched fst snd supplied]. unfold addPath_searchParams.
    now rewrite (job_options_fields (fun s : string => s) URLSearchParams.append)
      by reflexivity.
  - unfold addFile_formData.
    rewrite (job_options_fields FormData.Text FormData.append) by reflexivity.
    unfold FormData.append. now rewrite <- !app_assoc.
  - subst options. cbv beta. unfold present.
    rewrite !map_app.
    repeat match goal with
           | |- context [truthy ?v] => destruct (truthy v)
           end; reflexivity.
Qed.

(** X22 -- the query of [queue] lists the filters that are present in the
    order [start], [limit], [search], [nzo_ids], then the control fields,
    and no field name occurs twice. *)
Theorem queue_request_in_fixed_order :
  forall (this : Client) (start limit : option Z) (search : option string)
         (nzoIds : option (list string)),
    let query :=
      searchParams (methodCall_url this "queue"
                      (ArgsParams (queue_searchParams start limit search nzoIds))
                      "json") in
    query = present (fun s => s) "start" (of_number start)
            ++ present (fun s => s) "limit" (of_number limit)
            ++ present (fun s => s) "search" (of_string search)
            ++ present (fun s => s) "nzo_ids" (of_strings nzoIds)
            ++ control_fields this "queue" "json" /\
    NoDup (URLSearchParams.keys query).
Proof.
  intros this start limit search nzoIds query.
  assert (Hnd : NoDup (URLSearchParams.keys
                         (queue_searchParams start limit search nzoIds)
                       ++ ["mode"; "output"; "apikey"])).
  { rewrite queue_searchParams_fields.
    unfold URLSearchParams.keys. rewrite !map_app. unfold present.
    repeat match goal with
           | |- context [truthy ?v] => destruct (truthy v)
           end; apply distinct_NoDup; reflexivity. }
  subst query.
  rewrite methodCall_url_distinct_names by (eapply NoDup_app_remove_r; exact Hnd).
  simpl searchParams. split.
  - rewrite queue_searchParams_fields. now rewrite <- !app_assoc.
  - unfold URLSearchParams.keys. rewrite map_app. exact Hnd.
Qed.
